(** * vhdl-style-guide: classification fallback and rule engine

    A shallow embedding of

    - [vsg/vhdlFile/classify_new/interface_unknown_declaration.py]
      (the fallback classifier for object declarations without an
      explicit object class keyword),
    - [vsg/rules/blank_line_below_line_ending_with_token.py]
      (the blank-line adjacency rule),
    - [vsg/rules/architecture/rule_010.py] (the keyword after [end]), and
    - [vsg/rules/instantiation/rule_029.py] (alignment of the inline
      comments of an instantiation),

    together with the parts of the engine they lean on: the helpers of
    [vsg.vhdlFile.utils], the queries and the rewrite of the token
    stream, and [rule.Rule] with its [configure], [analyze] and [fix].
    Those parts are described by the design document only; every
    definition that stands for one of them says so.

    The token list [lObjects] that the Python code mutates in place is
    threaded through the classifiers as an explicit state next to the
    cursor [iToken]; a raised exception is a result of its own. *)

From Stdlib Require Import ZArith Ascii String Sorted.
From stdpp Require Import base list strings gmap.

Open Scope string_scope.
Open Scope list_scope.

(** ** Tokens *)

(** The class of a token object.  [item] is a token the lexer produced
    and no classifier has touched yet; [whitespace], [comment],
    [carriage_return] and [blank_line] are the layout classes of
    [vsg.parser]; the remaining constructors are the production specific
    classes of the [vsg.token] modules used below, [production] standing
    for every other member of the enumeration. *)
Inductive kind : Type :=
| item
| whitespace
| comment
| carriage_return
| blank_line
| identifier
| colon
| bus_keyword
| assignment
| comma
| in_keyword
| out_keyword
| inout_keyword
| buffer_keyword
| linkage_keyword
| subtype_indication_token
| expression_token
| production (name : string).

#[global] Instance kind_eq_dec : EqDecision kind.
Proof. solve_decision. Defined.

Record token : Type := Token { kind_of : kind; value : string }.

#[global] Instance token_eq_dec : EqDecision token.
Proof. solve_decision. Defined.

(** The token is of class [cls] itself. *)
Definition has_class (oToken : token) (cls : kind) : bool :=
  bool_decide (kind_of oToken = cls).

(** The class hierarchy of [vsg.parser] and [vsg.token], which the rules
    consult through [isinstance]: [issubclass k cls] says that [k] is
    [cls] or derives from it.  The class definitions are no part of the
    sources at hand, so the hierarchy is a parameter of what follows, of
    which only this is used: a class is a subclass of itself. *)
Class Hierarchy : Type := {
  issubclass : kind -> kind -> bool;
  issubclass_refl : forall k, issubclass k k = true
}.

(** [isinstance(oToken, cls)]. *)
Definition isinstance {HH : Hierarchy} (oToken : token) (cls : kind) : bool :=
  issubclass (kind_of oToken) cls.

(** A hierarchy to try things on: every class derives from [item], the
    base class of the token objects, and from no other class. *)
Definition item_hierarchy : Hierarchy.
Proof.
  refine {| issubclass := fun k cls => bool_decide (k = cls) || bool_decide (cls = item) |}.
  intros k. by rewrite bool_decide_eq_true_2.
Defined.

Definition is_item (t : token) : bool :=
  match kind_of t with item => true | _ => false end.

(** [token(lObjects[i].get_value())]: the same text under a new class. *)
Definition set_kind (k : kind) (t : token) : token :=
  {| kind_of := k; value := value t |}.

(** ** Classification results *)

(** Modelled from the spec: the structured classification error (section 7,
    ClassificationError), raised by [vsg.vhdlFile.utils].  It carries the
    expected token, the token found and its position in the token list. *)
Record classify_error : Type := ClassifyError {
  expected : string;
  found : option string;
  position : nat
}.

Inductive result (A : Type) : Type :=
| Ok (a : A)
| Err (e : classify_error).

Arguments Ok {A} a.
Arguments Err {A} e.

(** Raising [ClassifyError] aborts the classification of the file: the
    error passes through every later step. *)
#[global] Instance result_bind : MBind result :=
  fun A B (f : A -> result B) (r : result A) =>
    match r with
    | Ok a => f a
    | Err e => Err e
    end.

(** The state every classifier transforms: the cursor and the token list. *)
Definition cursor : Type := (nat * list token)%type.

(** ** [vsg.vhdlFile.utils] *)

Module utils.

(** Modelled from the spec: the scan behind [find_next_token]; the
    offset of the first unclassified token of a suffix of the list. *)
Fixpoint next_item (s : list token) : option nat :=
  match s with
  | [] => None
  | t :: s' => if is_item t then Some 0 else S <$> next_item s'
  end.

(** Modelled from the spec: [find_next_token], the lookahead probe of
    section 4.1; the index of the first token at or after the cursor
    that has not been classified, layout tokens being skipped. *)
Definition find_next_token (iToken : nat) (lObjects : list token) : option nat :=
  Nat.add iToken <$> next_item (drop iToken lObjects).

(** Modelled from the spec: the token the lookahead probe lands on. *)
Definition next_token (iToken : nat) (lObjects : list token) : option token :=
  i ← find_next_token iToken lObjects; lObjects !! i.

(** Modelled from the spec: [is_next_token], does the next token carry
    the given text. *)
Definition is_next_token (sToken : string) (iToken : nat) (lObjects : list token) : bool :=
  match next_token iToken lObjects with
  | Some t => String.eqb (value t) sToken
  | None => false
  end.

(** Modelled from the spec: [is_next_token_one_of], the probe against a
    small fixed set of disambiguating keywords. *)
Definition is_next_token_one_of (lTokens : list string) (iToken : nat)
    (lObjects : list token) : bool :=
  match next_token iToken lObjects with
  | Some t => existsb (String.eqb (value t)) lTokens
  | None => false
  end.

(** Modelled from the spec: [assign_token], the assignment
    [lObjects[i] = token(lObjects[i].get_value())]; kinds are changed in
    place, tokens are neither reordered nor deleted. *)
Definition assign_token (lObjects : list token) (i : nat) (k : kind) : list token :=
  alter (set_kind k) i lObjects.

(** Modelled from the spec: [assign_next_token_required], section 4.1
    (output and failure mode); the next token must carry [sToken], it is
    given class [k] and the cursor moves one token past it, otherwise
    classification fails with the expected token, the token found and
    its position. *)
Definition assign_next_token_required (sToken : string) (k : kind)
    (iToken : nat) (lObjects : list token) : result cursor :=
  match find_next_token iToken lObjects with
  | Some i =>
      match lObjects !! i with
      | Some t =>
          if String.eqb (value t) sToken
          then Ok (S i, assign_token lObjects i k)
          else Err {| expected := sToken; found := Some (value t); position := i |}
      | None =>
          Err {| expected := sToken; found := None; position := length lObjects |}
      end
  | None => Err {| expected := sToken; found := None; position := length lObjects |}
  end.

(** Modelled from the spec: [assign_next_token_if], section 4.1; an
    optional clause is classified only if the next token is its
    introducing keyword, and the cursor then moves one token past it;
    absence is not an error and leaves cursor and list alone. *)
Definition assign_next_token_if (sToken : string) (k : kind)
    (iToken : nat) (lObjects : list token) : cursor :=
  match find_next_token iToken lObjects with
  | Some i =>
      if is_next_token sToken iToken lObjects
      then (S i, assign_token lObjects i k)
      else (iToken, lObjects)
  | None => (iToken, lObjects)
  end.

(** Modelled from the spec: the scan shared by the [classify_until]
    functions of the sub-classifiers (section 4.1, termination).  It walks a
    suffix of the list, keeps the parenthesis depth, gives every
    unclassified token the class [assign] chooses from its text and
    stops in front of the first terminator met at depth zero (or of a
    closing parenthesis that was not opened inside the region).  It
    returns how many tokens it walked over and the rewritten suffix. *)
Fixpoint scan_until (lUntils : list string) (assign : string -> kind)
    (depth : nat) (s : list token) : nat * list token :=
  match s with
  | [] => (0, [])
  | t :: s' =>
      if is_item t then
        if String.eqb (value t) "(" then
          let '(n, r) := scan_until lUntils assign (S depth) s' in
          (S n, set_kind (assign (value t)) t :: r)
        else if String.eqb (value t) ")" then
          match depth with
          | 0 => (0, s)
          | S d =>
              let '(n, r) := scan_until lUntils assign d s' in
              (S n, set_kind (assign (value t)) t :: r)
          end
        else if Nat.eqb depth 0 && existsb (String.eqb (value t)) lUntils then
          (0, s)
        else
          let '(n, r) := scan_until lUntils assign depth s' in
          (S n, set_kind (assign (value t)) t :: r)
      else
        let '(n, r) := scan_until lUntils assign depth s' in
        (S n, t :: r)
  end.

(** Modelled from the spec: the termination contract of section 4.1; a
    sub-region is classified from the cursor up to, and not including,
    the first terminating symbol at the current nesting depth. *)
Definition classify_region (lUntils : list string) (assign : string -> kind)
    (iToken : nat) (lObjects : list token) : cursor :=
  let '(n, r) := scan_until lUntils assign 0 (drop iToken lObjects) in
  (iToken + n, take iToken lObjects ++ r).

End utils.

(** ** The sub-classifiers *)

Module identifier_list.

(** Modelled from the spec: [identifier_list.classify_until]; the names
    of the list receive the class handed in by the caller, the commas
    between them the comma class. *)
Definition classify_until (lUntils : list string) (iToken : nat)
    (lObjects : list token) (oToken : kind) : cursor :=
  utils.classify_region lUntils
    (fun v => if String.eqb v "," then comma else oToken) iToken lObjects.

End identifier_list.

Module mode.

(** Modelled from the spec: the mode keywords and their classes. *)
Definition keywords : list (string * kind) :=
  [("in", in_keyword); ("out", out_keyword); ("inout", inout_keyword);
   ("buffer", buffer_keyword); ("linkage", linkage_keyword)].

Fixpoint lookup_keyword (tbl : list (string * kind)) (v : string) : option kind :=
  match tbl with
  | [] => None
  | (s, k) :: tbl' => if String.eqb v s then Some k else lookup_keyword tbl' v
  end.

(** Modelled from the spec: [mode.classify]; the optional mode is
    classified only when the next token is one of the mode keywords. *)
Definition classify (iToken : nat) (lObjects : list token) : cursor :=
  match utils.next_token iToken lObjects with
  | Some t =>
      match lookup_keyword keywords (value t) with
      | Some k => utils.assign_next_token_if (value t) k iToken lObjects
      | None => (iToken, lObjects)
      end
  | None => (iToken, lObjects)
  end.

End mode.

Module subtype_indication.

(** Modelled from the spec: [subtype_indication.classify_until]. *)
Definition classify_until (lUntils : list string) (iToken : nat)
    (lObjects : list token) : cursor :=
  utils.classify_region lUntils (fun _ => subtype_indication_token) iToken lObjects.

End subtype_indication.

Module expression.

(** Modelled from the spec: [expression.classify_until]. *)
Definition classify_until (sUntil : string) (iToken : nat)
    (lObjects : list token) : cursor :=
  utils.classify_region [sUntil] (fun _ => expression_token) iToken lObjects.

End expression.

(** ** [interface_unknown_declaration] *)

Module interface_unknown_declaration.

(** The keywords that hand the construct to another classifier. *)
Definition other_declarations : list string :=
  ["type"; "file"; "function"; "procedure"; "impure"; "pure"; "package"].

(** [[
    interface_unknown_declaration ::=
        identifier_list : [ mode ] subtype_indication [ bus ] [ := static_expression ]
    ]] *)
Definition classify (iToken : nat) (lObjects : list token) : result cursor :=
  let '(iCurrent, lObjects) :=
    identifier_list.classify_until [":"] iToken lObjects identifier in
  '(iCurrent, lObjects) ←
    utils.assign_next_token_required ":" colon iCurrent lObjects;
  let '(iCurrent, lObjects) := mode.classify iCurrent lObjects in
  let '(iCurrent, lObjects) :=
    subtype_indication.classify_until [";"; "bus"; ":="] iCurrent lObjects in
  let '(iCurrent, lObjects) :=
    utils.assign_next_token_if "bus" bus_keyword iCurrent lObjects in
  if utils.is_next_token ":=" iCurrent lObjects then
    '(iCurrent, lObjects) ←
      utils.assign_next_token_required ":=" assignment iCurrent lObjects;
    Ok (expression.classify_until ";" iCurrent lObjects)
  else
    Ok (iCurrent, lObjects).

Definition detect (iToken : nat) (lObjects : list token) : result cursor :=
  if utils.is_next_token_one_of other_declarations iToken lObjects
  then Ok (iToken, lObjects)
  else classify iToken lObjects.

End interface_unknown_declaration.

(** ** Well-formed declarations

    The shape of the token run the fallback is meant for, with layout
    tokens allowed wherever the lexer may leave them. *)

(** [passes lUntils depth s]: the scan walks over the whole of [s] without
    stopping, and ends at the depth returned. *)
Fixpoint passes (lUntils : list string) (depth : nat) (s : list token) : option nat :=
  match s with
  | [] => Some depth
  | t :: s' =>
      if is_item t then
        if String.eqb (value t) "(" then passes lUntils (S depth) s'
        else if String.eqb (value t) ")" then
          match depth with
          | 0 => None
          | S d => passes lUntils d s'
          end
        else if Nat.eqb depth 0 && existsb (String.eqb (value t)) lUntils then None
        else passes lUntils depth s'
      else passes lUntils depth s'
  end.

(** A sub-region for the terminators [lUntils]: no terminator at depth
    zero, parentheses balanced. *)
Definition region (lUntils : list string) (s : list token) : bool :=
  bool_decide (passes lUntils 0 s = Some 0).

(** Layout (or already classified) tokens only. *)
Definition layout (s : list token) : bool := forallb (fun t => negb (is_item t)) s.

(** The tokens of a region after classification. *)
Definition classified (assign : string -> kind) (s : list token) : list token :=
  map (fun t => if is_item t then set_kind (assign (value t)) t else t) s.

(** The text of the first unclassified token of a run, if any. *)
Definition first_value (s : list token) : option string :=
  n ← utils.next_item s; value <$> s !! n.

Record declaration : Type := Declaration {
  d_identifiers : list token;          (* identifier_list, up to the colon *)
  d_mode : option (list token * string); (* layout, then the mode keyword *)
  d_subtype : list token;              (* subtype_indication *)
  d_bus : option (list token);         (* bus, then layout *)
  d_default : option (list token)      (* := and the static expression *)
}.

Definition mode_tokens (d : declaration) : list token :=
  match d_mode d with
  | Some (sp, m) => sp ++ [Token item m]
  | None => []
  end.

Definition bus_tokens (d : declaration) : list token :=
  match d_bus d with
  | Some sp => Token item "bus" :: sp
  | None => []
  end.

Definition default_tokens (d : declaration) : list token :=
  match d_default d with
  | Some e => Token item ":=" :: e
  | None => []
  end.

(** The declaration as the lexer delivers it. *)
Definition tokens_of (d : declaration) : list token :=
  d_identifiers d ++ Token item ":" :: mode_tokens d ++ d_subtype d
    ++ bus_tokens d ++ default_tokens d.

Definition wf_mode (d : declaration) : bool :=
  match d_mode d with
  | Some (sp, m) => layout sp && bool_decide (is_Some (mode.lookup_keyword mode.keywords m))
  | None =>
      match first_value (d_subtype d) with
      | Some v => bool_decide (mode.lookup_keyword mode.keywords v = None)
      | None => true
      end
  end.

Definition wf_declaration (d : declaration) : bool :=
  region [":"] (d_identifiers d)
  && wf_mode d
  && region [";"; "bus"; ":="] (d_subtype d)
  && match d_bus d with Some sp => layout sp | None => true end
  && match d_default d with Some e => region [";"] e | None => true end.

(** The declaration as the fallback leaves it. *)
Definition classified_mode (d : declaration) : list token :=
  match d_mode d with
  | Some (sp, m) =>
      sp ++ [Token (default item (mode.lookup_keyword mode.keywords m)) m]
  | None => []
  end.

Definition classified_bus (d : declaration) : list token :=
  match d_bus d with
  | Some sp => Token bus_keyword "bus" :: sp
  | None => []
  end.

Definition classified_default (d : declaration) : list token :=
  match d_default d with
  | Some e => Token assignment ":=" :: classified (fun _ => expression_token) e
  | None => []
  end.

Definition classified_declaration (d : declaration) : list token :=
  classified (fun v => if String.eqb v "," then comma else identifier) (d_identifiers d)
    ++ Token colon ":" :: classified_mode d
    ++ classified (fun _ => subtype_indication_token) (d_subtype d)
    ++ classified_bus d ++ classified_default d.

(** Layout tokens left between a closing [bus] and the terminator. *)
Definition trailing_layout (d : declaration) : nat :=
  match d_default d, d_bus d with
  | None, Some sp => length sp
  | _, _ => 0
  end.

(** ** Token ranges of interest and violations *)

(** Modelled from the spec: the synthesized tokens
    [vsg.parser.blank_line()] and [vsg.parser.carriage_return()]. *)
Definition new_blank_line : token := Token blank_line EmptyString.
Definition new_carriage_return : token := Token carriage_return (String (Ascii.ascii_of_nat 10) EmptyString).

(** Modelled from the spec: the token range of interest ([Tokens] of
    [vsg.vhdlFile], built as [Tokens(iStartIndex, iLine, lTokens)] by the
    tests); the span it covers in the stream is fixed when it is built,
    [set_tokens] only replaces what the span is to become. *)
Record Tokens : Type := TokensOfInterest {
  get_start_index : nat;
  get_end_index : nat;
  get_line_number : Z;
  get_tokens : list token
}.

Definition new_Tokens (iStart : nat) (line : Z) (l : list token) : Tokens :=
  {| get_start_index := iStart; get_end_index := iStart + length l;
     get_line_number := line; get_tokens := l |}.

(** [dAction], a dictionary with the single key ['action']. *)
Record Action : Type := { action : string }.

(** Modelled from the spec: [violation.New(iLine, oTokens, sSolution)]
    with its action (section 3, Violation). *)
Record Violation : Type := NewViolation {
  v_line : Z;
  v_tokens : Tokens;
  v_solution : string;
  v_action : option Action
}.

Module violation.

(** Modelled from the spec: the methods of the violation object the rule
    calls. *)
Definition New (line : Z) (oTokens : Tokens) (sSolution : string) : Violation :=
  {| v_line := line; v_tokens := oTokens; v_solution := sSolution; v_action := None |}.

Definition set_action (v : Violation) (dAction : Action) : Violation :=
  {| v_line := v_line v; v_tokens := v_tokens v; v_solution := v_solution v;
     v_action := Some dAction |}.

Definition set_tokens (v : Violation) (l : list token) : Violation :=
  {| v_line := v_line v;
     v_tokens := {| get_start_index := get_start_index (v_tokens v);
                    get_end_index := get_end_index (v_tokens v);
                    get_line_number := get_line_number (v_tokens v);
                    get_tokens := l |};
     v_solution := v_solution v; v_action := v_action v |}.

Definition get_tokens (v : Violation) : list token := get_tokens (v_tokens v).

End violation.

(** ** The classified token stream *)

Module vhdlFile.

Definition is_carriage_return (t : token) : bool := has_class t carriage_return.

(** Modelled from the spec: the line-based view of the stream (section
    3); the lines are the runs of tokens between line terminators. *)
Fixpoint lines_of (l : list token) : list (list token) :=
  match l with
  | [] => [[]]
  | t :: l' =>
      if is_carriage_return t then [] :: lines_of l'
      else match lines_of l' with
           | L :: ls => (t :: L) :: ls
           | [] => [[t]]
           end
  end.

(** Modelled from the spec: a line ends with one of the classes
    [lKinds]. *)
Definition ends_with (lKinds : list kind) (L : list token) : bool :=
  match last L with
  | Some t => existsb (has_class t) lKinds
  | None => false
  end.

(** Modelled from the spec: the lines below the lines ending with one of
    [lKinds], each with
    the index of its first token and its line number; [start] and
    [line] are those of the first line of [ls]. *)
Fixpoint lines_below (lKinds : list kind) (start : nat) (line : Z)
    (ls : list (list token)) : list Tokens :=
  match ls with
  | L1 :: ls' =>
      match ls' with
      | L2 :: _ =>
          (if ends_with lKinds L1
           then [new_Tokens (start + length L1 + 1) (line + 1) L2]
           else [])
          ++ lines_below lKinds (start + length L1 + 1) (line + 1) ls'
      | [] => []
      end
  | [] => []
  end.

(** Modelled from the spec: [get_line_below_line_ending_with_token],
    the query of section 4.2, every line immediately below a line
    ending in one of the given token classes; lines count from one. *)
Definition get_line_below_line_ending_with_token (oFile : list token)
    (lKinds : list kind) : list Tokens :=
  lines_below lKinds 0 1 (lines_of oFile).

(** The two queries of the stream the rule also calls: the variant
    bounded by hierarchy limits and the query of the no-blank-line style.
    Nothing below looks into their result, so they are taken as given. *)
Record extract : Type := {
  get_line_below_line_ending_with_token_with_hierarchy :
    list token -> list kind -> list kind -> list Tokens;
  get_blank_lines_below_line_ending_with_token :
    list token -> list kind -> option (list kind) -> list Tokens
}.

(** Modelled from the spec: [update], the batch rewrite of section 4.2
    and section 9; every repaired range replaces the span it was found
    at, the last range first so that the spans of the earlier ones
    stay valid. *)
Definition update (oFile : list token) (lUpdates : list Violation) : list token :=
  foldr (fun v acc =>
           take (get_start_index (v_tokens v)) acc
             ++ violation.get_tokens v
             ++ drop (get_end_index (v_tokens v)) acc)
        oFile lUpdates.

End vhdlFile.

(** ** [blank_line_below_line_ending_with_token] *)

Module blank_line_below_line_ending_with_token.

(** The rule object: the attributes [__init__] sets, the two of
    [rule.Rule] used here and the violations recorded so far. *)
Record Rule : Type := {
  name : string;
  identifier : string;
  solution : string;
  phase : Z;
  fixable : bool;
  lTokens : list kind;
  lHierarchyLimits : option (list kind);
  lAllowTokens : list kind;
  style : string;
  configuration : list string;
  violations : list Violation
}.

Definition set_violations (self : Rule) (vs : list Violation) : Rule :=
  {| name := name self; identifier := identifier self; solution := solution self;
     phase := phase self; fixable := fixable self; lTokens := lTokens self;
     lHierarchyLimits := lHierarchyLimits self; lAllowTokens := lAllowTokens self;
     style := style self; configuration := configuration self;
     violations := vs |}.

(** [rule.Rule.add_violation]: the violation is appended. *)
Definition add_violation (self : Rule) (v : Violation) : Rule :=
  set_violations self (violations self ++ [v]).

(** [__init__(self, name, identifier, lTokens, lAllowTokens=[])]; the
    universal attributes start at the defaults the tests of [rule.Rule]
    record. *)
Definition init (sName sIdentifier : string) (lKinds lAllow : list kind) : Rule :=
  {| name := sName; identifier := sIdentifier;
     solution := "Insert blank line below";
     phase := 3;
     fixable := true;
     lTokens := lKinds;
     lHierarchyLimits := None;
     lAllowTokens := lAllow;
     style := "require_blank_line";
     configuration := ["indentSize"; "phase"; "disable"; "fixable"; "severity"; "style"];
     violations := [] |}.

Definition _get_tokens_of_interest (X : vhdlFile.extract) (self : Rule)
    (oFile : list token) : list Tokens :=
  if String.eqb (style self) "require_blank_line" then
    match lHierarchyLimits self with
    | None => vhdlFile.get_line_below_line_ending_with_token oFile (lTokens self)
    | Some lim =>
        vhdlFile.get_line_below_line_ending_with_token_with_hierarchy X oFile
          (lTokens self) lim
    end
  else if String.eqb (style self) "no_blank_line" then
    vhdlFile.get_blank_lines_below_line_ending_with_token X oFile
      (lTokens self) (lHierarchyLimits self)
  else [].

(** The inner loop of [_is_allowed_token]: is some token of the range
    an instance of [oAllowToken]. *)
Fixpoint any_instance {HH : Hierarchy} (oAllowToken : kind) (lToks : list token) : bool :=
  match lToks with
  | [] => false
  | oToken :: rest =>
      if isinstance oToken oAllowToken then true else any_instance oAllowToken rest
  end.

(** The outer loop, left as soon as [bSkip] is set. *)
Fixpoint skip_flag {HH : Hierarchy} (lAllow : list kind) (lToks : list token) : bool :=
  match lAllow with
  | [] => false
  | oAllowToken :: rest =>
      if any_instance oAllowToken lToks then true else skip_flag rest lToks
  end.

Definition _is_allowed_token {HH : Hierarchy} (lAllow : list kind) (lToks : list token) : bool :=
  if skip_flag lAllow lToks then true else false.

Fixpoint _analyze_require_blank_line {HH : Hierarchy} (self : Rule) (lToi : list Tokens)
    (lAllow : list kind) : Rule :=
  match lToi with
  | [] => self
  | oToi :: rest =>
      let lToks := get_tokens oToi in
      if _is_allowed_token lAllow lToks then
        _analyze_require_blank_line self rest lAllow
      else if Nat.eqb (length lToks) 1
              && match lToks with
                 | t :: _ => isinstance t blank_line
                 | [] => false
                 end then
        _analyze_require_blank_line self rest lAllow
      else
        let oViolation := violation.New (get_line_number oToi - 1) oToi (solution self) in
        let oViolation := violation.set_action oViolation {| action := "Insert" |} in
        _analyze_require_blank_line (add_violation self oViolation) rest lAllow
  end.

Fixpoint _analyze_no_blank_line (self : Rule) (lToi : list Tokens)
    (lAllow : list kind) : Rule :=
  match lToi with
  | [] => self
  | oToi :: rest =>
      let oViolation := violation.New (get_line_number oToi + 1) oToi (solution self) in
      let oViolation := violation.set_action oViolation {| action := "Remove" |} in
      _analyze_no_blank_line (add_violation self oViolation) rest lAllow
  end.

Definition _analyze {HH : Hierarchy} (self : Rule) (lToi : list Tokens) : Rule :=
  if String.eqb (style self) "require_blank_line" then
    _analyze_require_blank_line self lToi (lAllowTokens self)
  else if String.eqb (style self) "no_blank_line" then
    _analyze_no_blank_line self lToi (lAllowTokens self)
  else self.

(** [_fix_violation]; [None] is the [TypeError] of subscripting an
    action that was never set. *)
Definition _fix_violation (oViolation : Violation) : option Violation :=
  let lToks := violation.get_tokens oViolation in
  dAction ← v_action oViolation;
  if String.eqb (action dAction) "Insert" then
    Some (violation.set_tokens oViolation
            (new_blank_line :: new_carriage_return :: lToks))
  else if String.eqb (action dAction) "Remove" then
    Some (violation.set_tokens oViolation [])
  else Some oViolation.

(** Modelled from the spec: [rule.Rule.analyze], section 3 and 4.2; the
    violations are reset, the ranges of interest queried and judged. *)
Definition analyze {HH : Hierarchy} (X : vhdlFile.extract) (self : Rule) (oFile : list token) : Rule :=
  _analyze (set_violations self []) (_get_tokens_of_interest X self oFile).

(** Modelled from the spec: [rule.Rule.fix], section 4.2 and 4.3; a
    fixable rule is analysed, each recorded violation repaired and the
    stream rewritten with the repaired ranges; a rule that is not
    fixable leaves the stream alone.  [None] stands for an exception
    raised by a repair.  ([fix] is a reserved word, hence the name.) *)
Definition fix_ {HH : Hierarchy} (X : vhdlFile.extract) (self : Rule) (oFile : list token)
    : option (Rule * list token) :=
  if fixable self then
    let self := analyze X self oFile in
    lFixed ← mapM _fix_violation (violations self);
    Some (set_violations self [], vhdlFile.update oFile lFixed)
  else Some (self, oFile).

End blank_line_below_line_ending_with_token.


(** ** What the blank-line rule is meant to report *)

(** A range needs no blank line put in front of it when it is a single
    blank-line token or holds a token that is an instance of an allowed
    class. *)
Definition exempt {HH : Hierarchy} (lAllow : list kind) (lToks : list token) : Prop :=
  match lToks with
  | [t] => isinstance t blank_line = true
  | _ => False
  end
  \/ Exists (fun t => Exists (fun cls => isinstance t cls = true) lAllow) lToks.

#[global] Instance exempt_dec {HH : Hierarchy} lAllow lToks : Decision (exempt lAllow lToks).
Proof.
  unfold exempt. destruct lToks as [|t [|t' r]]; apply _.
Defined.

(** The violation the require-blank-line style records for a range. *)
Definition insert_violation (sSolution : string) (oToi : Tokens) : Violation :=
  {| v_line := get_line_number oToi - 1;
     v_tokens := oToi;
     v_solution := sSolution;
     v_action := Some {| action := "Insert" |} |}.

(** The violation the no-blank-line style records for a range. *)
Definition remove_violation (sSolution : string) (oToi : Tokens) : Violation :=
  {| v_line := get_line_number oToi + 1;
     v_tokens := oToi;
     v_solution := sSolution;
     v_action := Some {| action := "Remove" |} |}.


(** ** Streams cut into lines

    A stream is a first line followed by terminated lines, each with the
    line terminator that precedes it.  The proofs about the rewrite of
    the stream go by induction over this decomposition. *)

Definition cr_free (L : list token) : bool :=
  forallb (fun t => negb (vhdlFile.is_carriage_return t)) L.

Fixpoint unlines (L0 : list token) (rest : list (token * list token)) : list token :=
  match rest with
  | [] => L0
  | (c, L) :: r => L0 ++ c :: unlines L r
  end.

Definition wf_lines (L0 : list token) (rest : list (token * list token)) : Prop :=
  cr_free L0 = true
  /\ Forall (fun p => vhdlFile.is_carriage_return p.1 = true /\ cr_free p.2 = true) rest.

(** The stream with a blank line put below every line that ends with one
    of [lKinds] and is followed by a line that is not exempt. *)
Fixpoint with_blank_lines {HH : Hierarchy} (lKinds lAllow : list kind) (L0 : list token)
    (rest : list (token * list token)) : list token :=
  match rest with
  | [] => L0
  | (c, L) :: r =>
      L0 ++ c ::
        (if vhdlFile.ends_with lKinds L0 && bool_decide (~ exempt lAllow L)
         then [new_blank_line; new_carriage_return] else [])
        ++ with_blank_lines lKinds lAllow L r
  end.

(** The lines of that stream. *)
Fixpoint lines_with_blank_lines {HH : Hierarchy} (lKinds lAllow : list kind) (L0 : list token)
    (rest : list (token * list token)) : list (list token) :=
  match rest with
  | [] => [L0]
  | (c, L) :: r =>
      L0 ::
        (if vhdlFile.ends_with lKinds L0 && bool_decide (~ exempt lAllow L)
         then [[new_blank_line]] else [])
        ++ lines_with_blank_lines lKinds lAllow L r
  end.

(** The repaired form of an Insert violation. *)
Definition repaired_insert (sSolution : string) (oToi : Tokens) : Violation :=
  violation.set_tokens (insert_violation sSolution oToi)
    (new_blank_line :: new_carriage_return :: get_tokens oToi).


(** The number of tokens a run of terminated lines takes in the stream. *)
Definition span (ls : list (list token)) : nat :=
  sum_list_with (fun L => length L + 1) ls.

(** A stream object whose two other queries find nothing. *)
Definition no_extract : vhdlFile.extract :=
  {| vhdlFile.get_line_below_line_ending_with_token_with_hierarchy := fun _ _ _ => [];
     vhdlFile.get_blank_lines_below_line_ending_with_token := fun _ _ _ => [] |}.


(** ** A small stream to try the rule on

    [[
    process
    begin
    a
    ]]
    with the rule asking for a blank line below [begin]. *)

Definition begin_rule : blank_line_below_line_ending_with_token.Rule :=
  blank_line_below_line_ending_with_token.init "process" "011"
    [production "begin_keyword"] [comment].

Definition process_lines : list token :=
  [Token (production "process_keyword") "process"; new_carriage_return;
   Token (production "begin_keyword") "begin"].

Definition statement_lines : list token :=
  [Token (production "simple_name") "a"; new_carriage_return].


(** ** [rule.Rule.configure] *)

Module rule.

(** Modelled from the spec: the values attributes and configuration
    options take (booleans, integers, strings, lists of names). *)
Inductive pyvalue : Type :=
| PyNone
| PyBool (b : bool)
| PyInt (z : Z)
| PyStr (s : string)
| PyList (l : list string).

(** The rule object as its attribute dictionary. *)
Abbreviation attributes := (gmap string pyvalue).

(** One block of options, and the blocks under the key ['rule']:
    ['global'] and one per rule, named [<name>_<identifier>]. *)
Abbreviation block := (gmap string pyvalue).

(** The configuration dictionary: the entry under ['rule'], if any. *)
Record configuration : Type := { rule_blocks : option (gmap string block) }.

(** Modelled from the spec: [rule.rule(name, identifier)]; the attributes
    a fresh rule has, with the defaults the tests of the class record. *)
Definition new (sName sIdentifier : pyvalue) : attributes :=
  list_to_map
    [("name", sName); ("identifier", sIdentifier); ("solution", PyNone);
     ("violations", PyList []); ("indentSize", PyInt 2); ("phase", PyNone);
     ("subphase", PyInt 1); ("disable", PyBool false); ("fixable", PyBool true);
     ("severity", PyStr "Error");
     ("configuration",
       PyList ["indentSize"; "phase"; "disable"; "fixable"; "severity"])].

(** [self.name + '_' + self.identifier]; [None] when either is not a
    string. *)
Definition rule_name (self : attributes) : option string :=
  match self !! "name", self !! "identifier" with
  | Some (PyStr n), Some (PyStr i) => Some (n ++ "_" ++ i)%string
  | _, _ => None
  end.

(** Modelled from the spec: one block applied; every option that names
    an attribute of the rule overwrites it, the others are passed over. *)
Definition apply_block (self : attributes) (b : block) : attributes :=
  map_imap (fun k v => Some (default v (b !! k))) self.

(** Modelled from the spec: [rule.Rule.configure] (sections 4.2, 4.3 and
    6), shaped so that the tests of [vsg/tests/rule/test_rule.py] pass;
    the [global] block is applied first, the block of the rule second.
    [None] is the exception raised when the name of the rule cannot be
    formed. *)
Definition configure (self : attributes) (dConfiguration : configuration)
    : option attributes :=
  match rule_blocks dConfiguration with
  | None => Some self
  | Some blocks =>
      let self :=
        match blocks !! "global" with
        | Some g => apply_block self g
        | None => self
        end in
      sRuleName ← rule_name self;
      Some match blocks !! sRuleName with
           | Some b => apply_block self b
           | None => self
           end
  end.

(** The list kept in the attribute [configuration]. *)
Definition configuration_list (self : attributes) : list string :=
  match self !! "configuration" with
  | Some (PyList l) => l
  | _ => []
  end.

(** The configuration with option [k] set to [v] in the block [sBlock]
    (made if it is not there). *)
Definition with_option (sBlock k : string) (v : pyvalue)
    (dConfiguration : configuration) : configuration :=
  let blocks := default ∅ (rule_blocks dConfiguration) in
  {| rule_blocks :=
       Some (<[sBlock := <[k := v]> (default ∅ (blocks !! sBlock))]> blocks) |}.

End rule.


(** ** Alignment in a region ([instantiation_029]) *)

Module alignment.

(** Modelled from the spec: the rule object of
    [align_tokens_in_region_between_tokens_skipping_lines_starting_with_tokens],
    with the attributes its constructor is given by [rule_029]. *)
Record Rule : Type := {
  name : string;
  identifier : string;
  lAlign : list kind;
  oStart : kind;
  oEnd : kind;
  lSkip : list kind;
  solution : string;
  subphase : Z
}.

Definition is_whitespace (t : token) : bool := has_class t whitespace.

Definition is_one_of (lKinds : list kind) (t : token) : bool :=
  existsb (has_class t) lKinds.

(** The number of characters a run of tokens takes on its line. *)
Definition width (l : list token) : nat :=
  sum_list_with (fun t => String.length (value t)) l.

(** The first token of a line, leading whitespace aside. *)
Fixpoint first_code (line : list token) : option token :=
  match line with
  | [] => None
  | t :: r => if is_whitespace t then first_code r else Some t
  end.

(** The line begins with a token of one of the classes to skip. *)
Definition begins_with (lKinds : list kind) (line : list token) : bool :=
  match first_code line with
  | Some t => is_one_of lKinds t
  | None => false
  end.

(** The line cut at its first token to align: what precedes it, the
    token, what follows. *)
Fixpoint cut (lKinds : list kind) (line : list token)
    : option (list token * token * list token) :=
  match line with
  | [] => None
  | t :: r =>
      if is_one_of lKinds t then Some ([], t, r)
      else '(b, a, x) ← cut lKinds r; Some (t :: b, a, x)
  end.

(** What precedes the token, less the whitespace that parts the token
    from it. *)
Fixpoint strip_padding (before : list token) : list token :=
  match before with
  | [] => []
  | t :: r =>
      match r with
      | [] => if is_whitespace t then [] else [t]
      | _ :: _ => t :: strip_padding r
      end
  end.

(** The column the token of the line stands at. *)
Definition token_column (lKinds : list kind) (line : list token) : option nat :=
  '(b, _, _) ← cut lKinds line; Some (width b).

(** Modelled from the spec: the column the line requires for its token,
    one blank after whatever precedes it. *)
Definition required_column (lKinds : list kind) (line : list token) : option nat :=
  '(b, _, _) ← cut lKinds line; Some (width (strip_padding b) + 1).

(** The columns required by the lines of the region that are not
    skipped. *)
Definition required_columns (self : Rule) (region : list (list token)) : list nat :=
  omap (fun line =>
          if begins_with (lSkip self) line then None
          else required_column (lAlign self) line) region.

(** The columns the tokens of those lines stand at. *)
Definition token_columns (self : Rule) (region : list (list token)) : list nat :=
  omap (fun line =>
          if begins_with (lSkip self) line then None
          else token_column (lAlign self) line) region.

Fixpoint spaces (n : nat) : string :=
  match n with
  | 0 => EmptyString
  | S n' => String " "%char (spaces n')
  end.

(** Modelled from the spec: the line with its token moved to column
    [col], by the whitespace in front of it. *)
Definition align_line (lKinds : list kind) (col : nat) (line : list token)
    : list token :=
  match cut lKinds line with
  | Some (b, a, x) =>
      strip_padding b
        ++ Token whitespace (spaces (col - width (strip_padding b))) :: a :: x
  | None => line
  end.

(** Modelled from the spec: the Align repair of section 4.2 on the
    lines of one region; the column is the greatest column required
    across the region, lines beginning with a class to skip are left
    as they are. *)
Definition fix_region (self : Rule) (region : list (list token))
    : list (list token) :=
  let col := max_list (required_columns self region) in
  map (fun line =>
         if begins_with (lSkip self) line then line
         else align_line (lAlign self) col line)
      region.

(** The token of the line does not stand at column [col], the line
    being one the rule aligns. *)
Definition misaligned (self : Rule) (col : nat) (line : list token) : bool :=
  negb (begins_with (lSkip self) line)
  && match token_column (lAlign self) line with
     | Some c => negb (Nat.eqb c col)
     | None => false
     end.

Fixpoint analyze_from (self : Rule) (col : nat) (i : nat)
    (region : list (list token)) : list nat :=
  match region with
  | [] => []
  | line :: rest =>
      (if misaligned self col line then [i] else [])
        ++ analyze_from self col (S i) rest
  end.

(** Modelled from the spec: the analysis of the alignment pattern of
    section 4.2 on the lines of one region; the lines, counted from
    zero, whose token does not stand at the greatest column required
    across the region, lines beginning with a class to skip left
    out. *)
Definition analyze (self : Rule) (region : list (list token)) : list nat :=
  analyze_from self (max_list (required_columns self region)) 0 region.

End alignment.

Module instantiation.

(** [rule_029]: the inline comments of an instantiation, between its
    label and its semicolon, full-line comments skipped. *)
Definition rule_029 : alignment.Rule :=
  {| alignment.name := "instantiation";
     alignment.identifier := "029";
     alignment.lAlign := [comment];
     alignment.oStart := production "component_instantiation_statement.instantiation_label";
     alignment.oEnd := production "component_instantiation_statement.semicolon";
     alignment.lSkip := [comment];
     alignment.solution := "Align comment.";
     alignment.subphase := 3 |}.

(** A region with inline comments at columns 10, 15 and 12 and a
    full-line comment. *)
Definition port_map_lines : list (list token) :=
  [ [Token whitespace "  "; Token (production "port_map_aspect") "a => b,";
     Token whitespace " "; Token comment "-- one"];
    [Token whitespace "    "; Token comment "-- a comment on its own"];
    [Token whitespace "  "; Token (production "port_map_aspect") "PORT_2 => b,";
     Token whitespace " "; Token comment "-- two"];
    [Token whitespace "  "; Token (production "port_map_aspect") "PORT_3 =>";
     Token whitespace " "; Token comment "-- three"] ].

(** A region whose inline comments stand at columns 10, 15 and 12 as
    well, the second one behind six blanks where one would do. *)
Definition padded_port_map_lines : list (list token) :=
  [ [Token whitespace "  "; Token (production "port_map_aspect") "a => b,";
     Token whitespace " "; Token comment "-- one"];
    [Token whitespace "  "; Token (production "port_map_aspect") "c => d,";
     Token whitespace "      "; Token comment "-- two"];
    [Token whitespace "  "; Token (production "port_map_aspect") "PORT_3 =>";
     Token whitespace " "; Token comment "-- three"] ].

End instantiation.


(** ** [architecture_010] *)

Module architecture.

(** The text of a line, a Python [str]: its characters by their Unicode
    code points. *)
Definition text : Type := list N.

(** The text a literal of the source stands for. *)
Definition codes (s : string) : text :=
  map N_of_ascii (list_ascii_of_string s).

(** Modelled from the spec: a line of the file as the line-based rules see
    it, its text and the flag the line classification sets on the line
    that ends an architecture. *)
Record Line : Type := { line : text; isEndArchitecture : bool }.

(** Modelled from the spec: [oLine.update_line]; the text is replaced. *)
Definition update_line (oLine : Line) (sLine : text) : Line :=
  {| line := sLine; isEndArchitecture := isEndArchitecture oLine |}.

(** [\s] in a pattern on [str]: the characters Unicode counts as white
    space, U+0009 to U+000D, U+001C to U+0020, U+0085, U+00A0, U+1680,
    U+2000 to U+200A, U+2028, U+2029, U+202F, U+205F and U+3000. *)
Definition is_space (c : N) : bool :=
  ((9 <=? c) && (c <=? 13) || (28 <=? c) && (c <=? 32)
   || (c =? 133) || (c =? 160) || (c =? 5760)
   || (8192 <=? c) && (c <=? 8202)
   || (c =? 8232) || (c =? 8233) || (c =? 8239) || (c =? 8287)
   || (c =? 12288))%N.

(** The letter a character is matched as under [re.IGNORECASE] on [str]:
    the capital letters A to Z fold to their small letters, and so do
    U+0130 and U+0131, the dotted capital and the dotless small i, which
    the case-insensitive match takes for [i]; no other character is
    matched by a letter of the two patterns below. *)
Definition lower (c : N) : N :=
  (if (65 <=? c) && (c <=? 90) then c + 32
   else if (c =? 304) || (c =? 305) then 105
   else c)%N.

(** The text after [\s*]. *)
Fixpoint skip_spaces (s : text) : text :=
  match s with
  | [] => []
  | c :: r => if is_space c then skip_spaces r else s
  end.

(** The text [\s*] matches. *)
Fixpoint take_spaces (s : text) : text :=
  match s with
  | [] => []
  | c :: r => if is_space c then c :: take_spaces r else []
  end.

(** A literal of small letters matched without regard to case at the
    head of [s]: the text matched and what follows it. *)
Fixpoint match_ci (lit s : text) : option (text * text) :=
  match lit with
  | [] => Some ([], s)
  | a :: lit' =>
      match s with
      | [] => None
      | c :: s' =>
          if (lower c =? a)%N
          then '(m, r) ← match_ci lit' s'; Some (c :: m, r)
          else None
      end
  end.

(** [re.match('^\s*end\s+architecture', s, re.IGNORECASE)]. *)
Definition re_match_end_architecture (s : text) : bool :=
  match match_ci (codes "end") (skip_spaces s) with
  | Some (_, r) =>
      match r with
      | c :: _ =>
          is_space c
          && bool_decide (is_Some (match_ci (codes "architecture") (skip_spaces r)))
      | [] => false
      end
  | None => false
  end.

(** [re.sub(r'^(\s*end)', r'\1 architecture', s, flags=re.IGNORECASE)]. *)
Definition re_sub_end (s : text) : text :=
  match match_ci (codes "end") (skip_spaces s) with
  | Some (m, r) => take_spaces s ++ m ++ codes " architecture" ++ r
  | None => s
  end.

(** The rule object: the attributes [__init__] sets, the fixable flag and
    the violations, here line numbers. *)
Record Rule : Type := {
  name : string;
  identifier : string;
  solution : string;
  phase : Z;
  fixable : bool;
  violations : list nat
}.

Definition quote : string := String (ascii_of_nat 34) EmptyString.

Definition rule_010 : Rule :=
  {| name := "architecture";
     identifier := "010";
     solution :=
       String.append "Add "
         (String.append quote
            (String.append "architecture"
               (String.append quote
                  (String.append " keyword after "
                     (String.append quote
                        (String.append "end" (String.append quote " keyword.")))))));
     phase := 1;
     fixable := true;
     violations := [] |}.

Definition set_violations (self : Rule) (vs : list nat) : Rule :=
  {| name := name self; identifier := identifier self; solution := solution self;
     phase := phase self; fixable := fixable self; violations := vs |}.

Definition add_violation (self : Rule) (iLineNumber : nat) : Rule :=
  set_violations self (violations self ++ [iLineNumber]).

(** The loop of [analyze] over [enumerate(oFile.lines)], from line
    [iLineNumber] on. *)
Fixpoint analyze_from (self : Rule) (iLineNumber : nat) (lines : list Line) : Rule :=
  match lines with
  | [] => self
  | oLine :: rest =>
      if isEndArchitecture oLine then
        if negb (re_match_end_architecture (line oLine))
        then analyze_from (add_violation self iLineNumber) (S iLineNumber) rest
        else analyze_from self (S iLineNumber) rest
      else analyze_from self (S iLineNumber) rest
  end.

Definition analyze (self : Rule) (oFile : list Line) : Rule :=
  analyze_from self 0 oFile.

(** [_fix_violations]; [None] is the [IndexError] of a line number
    beyond the file. *)
Fixpoint _fix_violations (lViolations : list nat) (oFile : list Line)
    : option (list Line) :=
  match lViolations with
  | [] => Some oFile
  | iLineNumber :: rest =>
      match oFile !! iLineNumber with
      | Some oLine =>
          _fix_violations rest
            (<[iLineNumber := update_line oLine (re_sub_end (line oLine))]> oFile)
      | None => None
      end
  end.

(** Modelled from the spec: [rule.Rule.fix] for a rule that brings its
    own [analyze] and [_fix_violations]; a fixable rule is analysed, its
    violations repaired and then cleared. *)
Definition fix_ (self : Rule) (oFile : list Line) : option (Rule * list Line) :=
  if fixable self then
    let self := analyze self oFile in
    oFile' ← _fix_violations (violations self) oFile;
    Some (set_violations self [], oFile')
  else Some (self, oFile).

(** The line begins with [end], leading whitespace aside. *)
Definition begins_with_end (oLine : Line) : bool :=
  bool_decide (is_Some (match_ci (codes "end") (skip_spaces (line oLine)))).

(** The line needs no repair. *)
Definition clean (oLine : Line) : bool :=
  negb (isEndArchitecture oLine) || re_match_end_architecture (line oLine).

End architecture.


(** ** What a classification pass may change *)

(** From cursor [iToken] on, [l'] is [l] with classes assigned: the same
    number of tokens with the same texts in the same order, every token
    in front of the cursor and every token that already had a class
    being the token it was. *)
Definition retagged (iToken : nat) (l l' : list token) : Prop :=
  length l' = length l
  /\ forall j t, l !! j = Some t ->
       exists t', l' !! j = Some t' /\ value t' = value t
                  /\ (j < iToken \/ is_item t = false -> t' = t).

(* ===================================================================== *)
(** * Properties *)
(* ===================================================================== *)

(** ** The lookahead probe *)

Lemma next_item_Some s n :
  utils.next_item s = Some n ->
  exists t, s !! n = Some t /\ is_item t = true /\ layout (take n s) = true.
Proof.
  revert n. induction s as [|a s IH]; intros n; simpl; [discriminate|].
  destruct (is_item a) eqn:Ha.
  - intros [= <-]. exists a. by rewrite take_0.
  - destruct (utils.next_item s) as [m|] eqn:Hm; simpl; [|discriminate].
    intros [= <-]. destruct (IH m eq_refl) as (t & Ht & Hi & Hl).
    exists t. simpl. unfold layout in *. simpl. by rewrite Ha, Hl.
Qed.

Lemma next_item_layout sp t s :
  layout sp = true -> is_item t = true ->
  utils.next_item (sp ++ t :: s) = Some (length sp).
Proof.
  unfold layout. induction sp as [|a sp IH]; simpl; intros Hl Ht.
  - by rewrite Ht.
  - apply andb_true_iff in Hl as [Ha Hl]. apply negb_true_iff in Ha.
    by rewrite Ha, IH.
Qed.

Lemma find_next_token_Some i l j :
  utils.find_next_token i l = Some j ->
  i <= j /\ exists t, l !! j = Some t /\ is_item t = true.
Proof.
  unfold utils.find_next_token.
  destruct (utils.next_item (drop i l)) as [n|] eqn:Hn; simpl; [|discriminate].
  intros [= <-]. split; [lia|].
  destruct (next_item_Some _ _ Hn) as (t & Ht & Hi & _).
  exists t. by rewrite lookup_drop in Ht.
Qed.

Lemma find_next_token_at P sp t s :
  layout sp = true -> is_item t = true ->
  utils.find_next_token (length P) (P ++ sp ++ t :: s) = Some (length P + length sp).
Proof.
  intros Hl Ht. unfold utils.find_next_token.
  by rewrite drop_app_length, next_item_layout.
Qed.

Lemma next_token_at P sp t s :
  layout sp = true -> is_item t = true ->
  utils.next_token (length P) (P ++ sp ++ t :: s) = Some t.
Proof.
  intros Hl Ht. unfold utils.next_token.
  rewrite find_next_token_at by done. simpl.
  rewrite lookup_app_r by lia.
  replace (length P + length sp - length P) with (length sp) by lia.
  by apply list_lookup_middle.
Qed.

(** ** Single classification steps

    Each step is described on a list cut at the cursor: [P] is what lies
    before the cursor, and the cursor is [length P]. *)

Lemma assign_token_at P sp t s k :
  utils.assign_token (P ++ sp ++ t :: s) (length P + length sp) k
  = P ++ sp ++ set_kind k t :: s.
Proof.
  unfold utils.assign_token. rewrite alter_app_r.
  replace (length sp) with (length sp + 0) by lia.
  by rewrite alter_app_r.
Qed.

Lemma assign_next_token_required_at P sp v k s :
  layout sp = true ->
  utils.assign_next_token_required v k (length P) (P ++ sp ++ Token item v :: s)
  = Ok (S (length P + length sp), P ++ sp ++ Token k v :: s).
Proof.
  intros Hl. unfold utils.assign_next_token_required.
  rewrite find_next_token_at by done.
  rewrite lookup_app_r by lia.
  replace (length P + length sp - length P) with (length sp) by lia.
  rewrite list_lookup_middle by done. simpl.
  by rewrite String.eqb_refl, assign_token_at.
Qed.

Lemma assign_next_token_if_at P sp v k s :
  layout sp = true ->
  utils.assign_next_token_if v k (length P) (P ++ sp ++ Token item v :: s)
  = (S (length P + length sp), P ++ sp ++ Token k v :: s).
Proof.
  intros Hl. unfold utils.assign_next_token_if, utils.is_next_token.
  rewrite find_next_token_at, next_token_at by done. simpl.
  by rewrite String.eqb_refl, assign_token_at.
Qed.

Lemma assign_next_token_if_other v k i l :
  utils.is_next_token v i l = false ->
  utils.assign_next_token_if v k i l = (i, l).
Proof.
  intros H. unfold utils.assign_next_token_if. rewrite H.
  by destruct (utils.find_next_token i l).
Qed.

Lemma is_next_token_at P sp t s v :
  layout sp = true -> is_item t = true ->
  utils.is_next_token v (length P) (P ++ sp ++ t :: s) = String.eqb (value t) v.
Proof.
  intros Hl Ht. unfold utils.is_next_token. by rewrite next_token_at.
Qed.

(** ** The region scan *)

Lemma scan_until_passes lUntils assign s : forall depth depth' s2,
  passes lUntils depth s = Some depth' ->
  utils.scan_until lUntils assign depth (s ++ s2)
  = (length s + (utils.scan_until lUntils assign depth' s2).1,
     classified assign s ++ (utils.scan_until lUntils assign depth' s2).2).
Proof.
  induction s as [|t s IH]; intros depth depth' s2; simpl.
  - intros [= ->]. by destruct (utils.scan_until _ _ _ _).
  - destruct (is_item t) eqn:Ht.
    + destruct (String.eqb (value t) "(") eqn:Ho.
      { intros H. by rewrite (IH _ _ s2 H). }
      destruct (String.eqb (value t) ")") eqn:Hc.
      { destruct depth as [|d]; [discriminate|].
        intros H. by rewrite (IH _ _ s2 H). }
      destruct (Nat.eqb depth 0 && existsb (String.eqb (value t)) lUntils);
        [discriminate|].
      intros H. by rewrite (IH _ _ s2 H).
    + intros H. by rewrite (IH _ _ s2 H).
Qed.

(** The scan halts in front of a terminator met at depth zero. *)
Lemma scan_until_halts lUntils assign v s :
  In v lUntils -> v <> "(" ->
  utils.scan_until lUntils assign 0 (Token item v :: s) = (0, Token item v :: s).
Proof.
  intros Hin Hv. simpl.
  destruct (String.eqb_spec v "(") as [->|_]; [done|].
  destruct (String.eqb v ")"); [done|].
  assert (existsb (String.eqb v) lUntils = true) as ->; [|done].
  apply existsb_exists. exists v. by rewrite String.eqb_refl.
Qed.

Lemma classify_region_at lUntils assign P s v rest :
  region lUntils s = true -> In v lUntils -> v <> "(" ->
  utils.classify_region lUntils assign (length P) (P ++ s ++ Token item v :: rest)
  = (length P + length s, P ++ classified assign s ++ Token item v :: rest).
Proof.
  unfold region. intros Hr%bool_decide_eq_true Hin Hv.
  unfold utils.classify_region.
  rewrite drop_app_length, take_app_length.
  rewrite (scan_until_passes _ _ _ _ _ _ Hr), scan_until_halts by done.
  simpl. f_equal. lia.
Qed.

Lemma length_classified assign s : length (classified assign s) = length s.
Proof. unfold classified. by rewrite length_map. Qed.

Lemma next_item_app s s2 :
  utils.next_item (s ++ s2)
  = match utils.next_item s with
    | Some n => Some n
    | None => Nat.add (length s) <$> utils.next_item s2
    end.
Proof.
  induction s as [|t s IH]; simpl.
  - by destruct (utils.next_item s2).
  - destruct (is_item t); [done|]. rewrite IH.
    destruct (utils.next_item s); [done|]. by destruct (utils.next_item s2).
Qed.

(** The token the probe meets in front of a region followed by an
    unclassified token [x]. *)
Lemma next_token_region P s x rest :
  is_item x = true ->
  utils.next_token (length P) (P ++ s ++ x :: rest)
  = match first_value s with
    | Some v => utils.next_token (length P) (P ++ s ++ x :: rest)
    | None => Some x
    end.
Proof.
  intros Hx. destruct (first_value s) eqn:Hf; [done|].
  unfold first_value in Hf.
  destruct (utils.next_item s) as [n|] eqn:Hn; simpl in Hf.
  - destruct (next_item_Some _ _ Hn) as (t & Ht & _). by rewrite Ht in Hf.
  - unfold utils.next_token, utils.find_next_token.
    rewrite drop_app_length, next_item_app, Hn. simpl. rewrite Hx. simpl.
    rewrite lookup_app_r by lia.
    replace (length P + (length s + 0) - length P) with (length s) by lia.
    by apply list_lookup_middle.
Qed.

Lemma next_token_first_value P s rest v :
  first_value s = Some v ->
  exists t, utils.next_token (length P) (P ++ s ++ rest) = Some t /\ value t = v.
Proof.
  unfold first_value. intros Hf.
  destruct (utils.next_item s) as [n|] eqn:Hn; simpl in Hf; [|done].
  destruct (next_item_Some _ _ Hn) as (t & Ht & _).
  rewrite Ht in Hf. injection Hf as <-. exists t. split; [|done].
  unfold utils.next_token, utils.find_next_token.
  rewrite drop_app_length, next_item_app, Hn. simpl.
  rewrite lookup_app_r by lia.
  replace (length P + n - length P) with n by lia.
  rewrite lookup_app_l; [done|]. by eapply lookup_lt_Some.
Qed.

Lemma mode_classify_at P d rest x :
  wf_mode d = true -> is_item x = true ->
  mode.lookup_keyword mode.keywords (value x) = None ->
  mode.classify (length P) (P ++ mode_tokens d ++ d_subtype d ++ x :: rest)
  = (length P + length (mode_tokens d),
     P ++ classified_mode d ++ d_subtype d ++ x :: rest).
Proof.
  unfold wf_mode, mode_tokens, classified_mode, mode.classify.
  intros Hwf Hx Hxm. destruct (d_mode d) as [[sp m]|].
  - apply andb_true_iff in Hwf as [Hl Hm%bool_decide_eq_true].
    destruct Hm as [k Hk]. rewrite Hk. cbn [default from_option].
    rewrite <- !app_assoc. cbn [app].
    rewrite next_token_at by done. cbn [value]. rewrite Hk.
    rewrite assign_next_token_if_at by done.
    rewrite length_app. cbn [length]. f_equal. lia.
  - cbn [length app]. rewrite Nat.add_0_r.
    destruct (first_value (d_subtype d)) as [v|] eqn:Hf.
    + apply bool_decide_eq_true in Hwf.
      destruct (next_token_first_value P _ (x :: rest) _ Hf) as (t & -> & <-).
      by rewrite Hwf.
    + rewrite next_token_region, Hf by done. by rewrite Hxm.
Qed.

(** What follows the subtype indication starts with one of its
    terminators. *)
Lemma tail_starts_with_terminator d rest :
  exists v rest',
    bus_tokens d ++ default_tokens d ++ Token item ";" :: rest = Token item v :: rest'
    /\ In v [";"; "bus"; ":="].
Proof.
  unfold bus_tokens, default_tokens.
  destruct (d_bus d), (d_default d); simpl; eexists _, _; (split; [reflexivity|]);
    simpl; tauto.
Qed.

Lemma assign_next_token_required_here P v k s :
  utils.assign_next_token_required v k (length P) (P ++ Token item v :: s)
  = Ok (S (length P), P ++ Token k v :: s).
Proof.
  pose proof (assign_next_token_required_at P [] v k s eq_refl) as H.
  simpl in H. by rewrite Nat.add_0_r in H.
Qed.

Lemma assign_next_token_if_here P v k s :
  utils.assign_next_token_if v k (length P) (P ++ Token item v :: s)
  = (S (length P), P ++ Token k v :: s).
Proof.
  pose proof (assign_next_token_if_at P [] v k s eq_refl) as H.
  simpl in H. by rewrite Nat.add_0_r in H.
Qed.

Lemma is_next_token_here P t s v :
  is_item t = true ->
  utils.is_next_token v (length P) (P ++ t :: s) = String.eqb (value t) v.
Proof. intros Ht. by apply (is_next_token_at P [] t s v). Qed.

(** The same steps with the cursor named, for chaining. *)
Lemma region_step n lUntils assign P s v rest :
  n = length P -> region lUntils s = true -> In v lUntils -> v <> "(" ->
  utils.classify_region lUntils assign n (P ++ s ++ Token item v :: rest)
  = (n + length s, P ++ classified assign s ++ Token item v :: rest).
Proof. intros ->. apply classify_region_at. Qed.

Lemma required_step n P v k s :
  n = length P ->
  utils.assign_next_token_required v k n (P ++ Token item v :: s)
  = Ok (S n, P ++ Token k v :: s).
Proof. intros ->. apply assign_next_token_required_here. Qed.

Lemma if_step n P v k s :
  n = length P ->
  utils.assign_next_token_if v k n (P ++ Token item v :: s)
  = (S n, P ++ Token k v :: s).
Proof. intros ->. apply assign_next_token_if_here. Qed.

Lemma is_next_step n P t s v :
  n = length P -> is_item t = true ->
  utils.is_next_token v n (P ++ t :: s) = String.eqb (value t) v.
Proof. intros ->. apply is_next_token_here. Qed.

Lemma mode_step n P d rest x :
  n = length P -> wf_mode d = true -> is_item x = true ->
  mode.lookup_keyword mode.keywords (value x) = None ->
  mode.classify n (P ++ mode_tokens d ++ d_subtype d ++ x :: rest)
  = (n + length (mode_tokens d),
     P ++ classified_mode d ++ d_subtype d ++ x :: rest).
Proof. intros ->. apply mode_classify_at. Qed.

Lemma is_next_step_layout n P sp t s v :
  n = length P -> layout sp = true -> is_item t = true ->
  utils.is_next_token v n (P ++ sp ++ t :: s) = String.eqb (value t) v.
Proof. intros ->. apply is_next_token_at. Qed.

Lemma required_step_layout n P sp v k s :
  n = length P -> layout sp = true ->
  utils.assign_next_token_required v k n (P ++ sp ++ Token item v :: s)
  = Ok (S (n + length sp), P ++ sp ++ Token k v :: s).
Proof. intros ->. apply assign_next_token_required_at. Qed.

Lemma length_classified_mode d : length (classified_mode d) = length (mode_tokens d).
Proof.
  unfold classified_mode, mode_tokens.
  destruct (d_mode d) as [[sp m]|]; [|done]. by rewrite !length_app.
Qed.

Ltac cursor_len :=
  repeat first
    [ rewrite length_app | rewrite length_cons | rewrite length_classified
    | rewrite length_classified_mode ];
  cbn [length]; lia.

Lemma classify_declaration P d rest :
  wf_declaration d = true ->
  interface_unknown_declaration.classify (length P)
    (P ++ tokens_of d ++ Token item ";" :: rest)
  = Ok (length P + length (tokens_of d) - trailing_layout d,
        P ++ classified_declaration d ++ Token item ";" :: rest).
Proof.
  unfold wf_declaration. intros Hwf.
  repeat (apply andb_true_iff in Hwf as [Hwf ?]).
  rename Hwf into Hids, H into Hdef, H0 into Hbus, H1 into Hsub, H2 into Hmode.
  unfold interface_unknown_declaration.classify, tokens_of, classified_declaration.
  unfold identifier_list.classify_until, subtype_indication.classify_until,
    expression.classify_until.
  set (a_id := fun v : string => if String.eqb v "," then comma else identifier).
  set (a_sub := fun _ : string => subtype_indication_token).
  set (a_exp := fun _ : string => expression_token).
  rewrite <- !app_assoc. cbn [app]. rewrite <- !app_assoc.
  destruct (tail_starts_with_terminator d rest) as (v & tl & Htl & Hv).
  rewrite Htl.
  assert (Hvm : mode.lookup_keyword mode.keywords v = None).
  { simpl in Hv. destruct Hv as [<-|[<-|[<-|[]]]]; reflexivity. }
  assert (Hvp : v <> "(").
  { simpl in Hv. destruct Hv as [<-|[<-|[<-|[]]]]; discriminate. }
  (* identifier list *)
  rewrite region_step by (done || (simpl; tauto)).
  (* colon *)
  rewrite (app_assoc P).
  rewrite (required_step (length P + length (d_identifiers d))) by cursor_len.
  cbn [mbind result_bind].
  (* mode *)
  change (?a ++ Token colon ":" :: ?b) with (a ++ [Token colon ":"] ++ b).
  rewrite (app_assoc (P ++ _)).
  rewrite (mode_step (S (length P + length (d_identifiers d)))) by (done || cursor_len).
  (* subtype indication *)
  rewrite (app_assoc (_ ++ _) (classified_mode d)).
  rewrite region_step by (done || cursor_len).
  clear Hv Hvm Hvp. revert Htl.
  rewrite (app_assoc _ (classified a_sub _)).
  match goal with
  | |- context [utils.assign_next_token_if _ _ ?c (?Q ++ _)] =>
      set (n := c); set (Q0 := Q)
  end.
  assert (Hn : n = length Q0) by (subst n Q0; cursor_len).
  unfold bus_tokens, default_tokens, classified_bus, classified_default,
    trailing_layout.
  destruct (d_bus d) as [sp|], (d_default d) as [e|]; cbn [app];
    intros [= <- <-].
  - rewrite if_step by done.
    change (Q0 ++ Token bus_keyword "bus" :: ?b)
      with (Q0 ++ [Token bus_keyword "bus"] ++ b).
    rewrite (app_assoc Q0).
    rewrite (is_next_step_layout (S n)) by (done || cursor_len).
    cbn [value String.eqb Ascii.eqb Bool.eqb].
    rewrite (required_step_layout (S n)) by (done || cursor_len).
    cbn [mbind result_bind].
    change (sp ++ Token assignment ":=" :: ?b)
      with (sp ++ [Token assignment ":="] ++ b).
    rewrite (app_assoc sp), (app_assoc (Q0 ++ _)).
    rewrite region_step by (done || cursor_len || (simpl; tauto)).
    subst n Q0. f_equal. f_equal.
    + cursor_len.
    + rewrite <- !app_assoc. reflexivity.
  - rewrite if_step by done.
    change (Q0 ++ Token bus_keyword "bus" :: ?b)
      with (Q0 ++ [Token bus_keyword "bus"] ++ b).
    rewrite (app_assoc Q0).
    rewrite (is_next_step_layout (S n)) by (done || cursor_len).
    cbn [value String.eqb Ascii.eqb Bool.eqb].
    subst n Q0. f_equal. f_equal.
    + cursor_len.
    + rewrite <- !app_assoc. reflexivity.
  - rewrite assign_next_token_if_other
      by (rewrite (is_next_step n) by done; reflexivity).
    rewrite (is_next_step n) by done.
    cbn [value String.eqb Ascii.eqb Bool.eqb].
    rewrite required_step by done.
    cbn [mbind result_bind].
    change (Q0 ++ Token assignment ":=" :: ?b)
      with (Q0 ++ [Token assignment ":="] ++ b).
    rewrite (app_assoc Q0).
    rewrite region_step by (done || cursor_len || (simpl; tauto)).
    subst n Q0. f_equal. f_equal.
    + cursor_len.
    + rewrite <- !app_assoc. reflexivity.
  - rewrite assign_next_token_if_other
      by (rewrite (is_next_step n) by done; reflexivity).
    rewrite (is_next_step n) by done.
    cbn [value String.eqb Ascii.eqb Bool.eqb].
    subst n Q0. f_equal. f_equal.
    + cursor_len.
    + rewrite <- !app_assoc. reflexivity.
Qed.

(** The fallback leaves behind, in front of the terminator, at most the
    layout that follows a closing [bus]. *)
Lemma classified_declaration_gap d :
  wf_declaration d = true ->
  exists front gap,
    classified_declaration d = front ++ gap
    /\ layout gap = true /\ length gap = trailing_layout d.
Proof.
  unfold wf_declaration. intros Hwf.
  repeat (apply andb_true_iff in Hwf as [Hwf ?]).
  unfold classified_declaration, classified_bus, classified_default, trailing_layout.
  destruct (d_default d) as [e|], (d_bus d) as [sp|].
  - eexists _, []. split; [symmetry; apply app_nil_r|split; reflexivity].
  - eexists _, []. split; [symmetry; apply app_nil_r|split; reflexivity].
  - set (a := classified _ (d_identifiers d)).
    set (b := classified _ (d_subtype d)).
    exists (a ++ Token colon ":" :: classified_mode d ++ b ++ [Token bus_keyword "bus"]), sp.
    split; [|done]. rewrite app_nil_r, <- !app_assoc. cbn [app].
    by rewrite <- !app_assoc.
  - eexists _, []. split; [symmetry; apply app_nil_r|split; reflexivity].
Qed.

Lemma length_classified_declaration d :
  length (classified_declaration d) = length (tokens_of d).
Proof.
  unfold classified_declaration, tokens_of, classified_bus, bus_tokens,
    classified_default, default_tokens.
  destruct (d_bus d), (d_default d); cursor_len.
Qed.

(** ** Forward progress *)

Lemma classify_region_ge lUntils assign i l :
  i <= (utils.classify_region lUntils assign i l).1.
Proof.
  unfold utils.classify_region.
  destruct (utils.scan_until _ _ _ _) as [n r]. simpl. lia.
Qed.

Lemma assign_next_token_required_gt v k i l c l' :
  utils.assign_next_token_required v k i l = Ok (c, l') -> i < c.
Proof.
  unfold utils.assign_next_token_required.
  destruct (utils.find_next_token i l) as [j|] eqn:Hj; [|discriminate].
  apply find_next_token_Some in Hj as [Hle _].
  destruct (l !! j) as [t|]; [|discriminate].
  destruct (String.eqb (value t) v); [|discriminate].
  intros [= <- _]. lia.
Qed.

Lemma assign_next_token_if_ge v k i l :
  i <= (utils.assign_next_token_if v k i l).1.
Proof.
  unfold utils.assign_next_token_if.
  destruct (utils.find_next_token i l) as [j|] eqn:Hj; [|done].
  apply find_next_token_Some in Hj as [Hle _].
  destruct (utils.is_next_token v i l); simpl; lia.
Qed.

Lemma mode_classify_ge i l : i <= (mode.classify i l).1.
Proof.
  unfold mode.classify. destruct (utils.next_token i l) as [t|]; [|done].
  destruct (mode.lookup_keyword mode.keywords (value t)); [|done].
  apply assign_next_token_if_ge.
Qed.

(** Whenever [classify] returns, it has consumed the colon at least. *)
Lemma classify_advances i l c l' :
  interface_unknown_declaration.classify i l = Ok (c, l') -> i < c.
Proof.
  unfold interface_unknown_declaration.classify,
    identifier_list.classify_until, subtype_indication.classify_until,
    expression.classify_until.
  pose proof (classify_region_ge [":"]
    (fun v => if String.eqb v "," then comma else identifier) i l) as H1.
  destruct (utils.classify_region [":"] _ i l) as [c1 l1]. simpl in H1.
  destruct (utils.assign_next_token_required ":" colon c1 l1) as [[c2 l2]|e] eqn:H2;
    [|discriminate].
  apply assign_next_token_required_gt in H2. cbn [mbind result_bind].
  pose proof (mode_classify_ge c2 l2) as H3.
  destruct (mode.classify c2 l2) as [c3 l3]. simpl in H3.
  pose proof (classify_region_ge [";"; "bus"; ":="]
    (fun _ => subtype_indication_token) c3 l3) as H4.
  destruct (utils.classify_region [";"; "bus"; ":="] _ c3 l3) as [c4 l4]. simpl in H4.
  pose proof (assign_next_token_if_ge "bus" bus_keyword c4 l4) as H5.
  destruct (utils.assign_next_token_if "bus" bus_keyword c4 l4) as [c5 l5]. simpl in H5.
  destruct (utils.is_next_token ":=" c5 l5).
  - destruct (utils.assign_next_token_required ":=" assignment c5 l5)
      as [[c6 l6]|e] eqn:H6; [|discriminate].
    apply assign_next_token_required_gt in H6. cbn [mbind result_bind].
    pose proof (classify_region_ge [";"] (fun _ => expression_token) c6 l6) as H7.
    destruct (utils.classify_region [";"] _ c6 l6) as [c7 l7]. simpl in H7.
    intros [= <- _]. lia.
  - intros [= <- _]. lia.
Qed.

(** ** The fallback classifier on declarations *)

(** C2 (as amended).  For a declaration of the shape
    [identifier_list : [mode] subtype_indication [bus] [:= expression]]
    followed by the terminating [;], layout tokens allowed throughout,
    the fallback succeeds, gives the identifiers (and commas), the colon,
    the mode and the subtype indication their classes, and returns a
    cursor from which the next unclassified token is the terminator: the
    cursor is that of the terminator less the layout tokens lying between
    a closing [bus] and the terminator, hence exactly at the terminator
    whenever there are none. *)
Theorem fallback_classifies_declaration P d rest :
  wf_declaration d = true ->
  exists c,
    interface_unknown_declaration.classify (length P)
      (P ++ tokens_of d ++ Token item ";" :: rest)
    = Ok (c, P ++ classified_declaration d ++ Token item ";" :: rest)
    /\ utils.find_next_token c (P ++ classified_declaration d ++ Token item ";" :: rest)
       = Some (length P + length (tokens_of d))
    /\ c + trailing_layout d = length P + length (tokens_of d).
Proof.
  intros Hwf. eexists. split; [by apply classify_declaration|].
  destruct (classified_declaration_gap d Hwf) as (front & gap & Hcd & Hl & Hg).
  pose proof (length_classified_declaration d) as Hlen.
  rewrite Hcd, length_app in Hlen.
  split; [|lia].
  rewrite Hcd, <- app_assoc, (app_assoc P).
  replace (length P + length (tokens_of d) - trailing_layout d)
    with (length (P ++ front)) by (rewrite length_app; lia).
  rewrite find_next_token_at by done. f_equal. rewrite length_app. lia.
Qed.

Lemma fallback_classifies_declaration_witness :
  exists c,
    interface_unknown_declaration.classify 1
      ([Token whitespace " "]
         ++ tokens_of
              {| d_identifiers := [Token item "x"; Token whitespace " "];
                 d_mode := Some ([Token whitespace " "], "in");
                 d_subtype := [Token whitespace " "; Token item "std_logic"];
                 d_bus := None;
                 d_default := None |}
         ++ Token item ";" :: [Token carriage_return EmptyString])
    = Ok (c,
          [Token whitespace " "]
            ++ classified_declaration
                 {| d_identifiers := [Token item "x"; Token whitespace " "];
                    d_mode := Some ([Token whitespace " "], "in");
                    d_subtype := [Token whitespace " "; Token item "std_logic"];
                    d_bus := None;
                    d_default := None |}
            ++ Token item ";" :: [Token carriage_return EmptyString])
    /\ utils.find_next_token c
         ([Token whitespace " "]
            ++ classified_declaration
                 {| d_identifiers := [Token item "x"; Token whitespace " "];
                    d_mode := Some ([Token whitespace " "], "in");
                    d_subtype := [Token whitespace " "; Token item "std_logic"];
                    d_bus := None;
                    d_default := None |}
            ++ Token item ";" :: [Token carriage_return EmptyString])
       = Some (length [Token whitespace " "]
               + length (tokens_of
                   {| d_identifiers := [Token item "x"; Token whitespace " "];
                      d_mode := Some ([Token whitespace " "], "in");
                      d_subtype := [Token whitespace " "; Token item "std_logic"];
                      d_bus := None;
                      d_default := None |}))
    /\ c + trailing_layout
             {| d_identifiers := [Token item "x"; Token whitespace " "];
                d_mode := Some ([Token whitespace " "], "in");
                d_subtype := [Token whitespace " "; Token item "std_logic"];
                d_bus := None;
                d_default := None |}
       = length [Token whitespace " "]
         + length (tokens_of
             {| d_identifiers := [Token item "x"; Token whitespace " "];
                d_mode := Some ([Token whitespace " "], "in");
                d_subtype := [Token whitespace " "; Token item "std_logic"];
                d_bus := None;
                d_default := None |}).
Proof.
  apply (fallback_classifies_declaration [Token whitespace " "]
           {| d_identifiers := [Token item "x"; Token whitespace " "];
              d_mode := Some ([Token whitespace " "], "in");
              d_subtype := [Token whitespace " "; Token item "std_logic"];
              d_bus := None;
              d_default := None |}
           [Token carriage_return EmptyString]).
  reflexivity.
Defined.

(** C2, the claim as worded, fails on [x : std_logic bus ;]: the cursor
    returned is one past [bus], on the whitespace, not on the terminator. *)
Lemma fallback_cursor_short_of_terminator :
  wf_declaration
    {| d_identifiers := [Token item "x"; Token whitespace " "];
       d_mode := None;
       d_subtype := [Token whitespace " "; Token item "std_logic"; Token whitespace " "];
       d_bus := Some [Token whitespace " "];
       d_default := None |} = true
  /\ interface_unknown_declaration.classify 0
       [Token item "x"; Token whitespace " "; Token item ":"; Token whitespace " ";
        Token item "std_logic"; Token whitespace " "; Token item "bus";
        Token whitespace " "; Token item ";"]
     = Ok (7,
           [Token identifier "x"; Token whitespace " "; Token colon ":";
            Token whitespace " "; Token subtype_indication_token "std_logic";
            Token whitespace " "; Token bus_keyword "bus";
            Token whitespace " "; Token item ";"])
  /\ [Token item "x"; Token whitespace " "; Token item ":"; Token whitespace " ";
      Token item "std_logic"; Token whitespace " "; Token item "bus";
      Token whitespace " "; Token item ";"] !! 7 = Some (Token whitespace " ")
  /\ [Token item "x"; Token whitespace " "; Token item ":"; Token whitespace " ";
      Token item "std_logic"; Token whitespace " "; Token item "bus";
      Token whitespace " "; Token item ";"] !! 8 = Some (Token item ";").
Proof. repeat split; reflexivity. Qed.

(** C3 (as amended).  Whenever [detect] does not meet one of the keywords
    that belong to another classifier and classification succeeds, the
    cursor returned lies strictly beyond the cursor given. *)
Theorem detect_advances i l c l' :
  utils.is_next_token_one_of interface_unknown_declaration.other_declarations i l = false ->
  interface_unknown_declaration.detect i l = Ok (c, l') ->
  i < c.
Proof.
  unfold interface_unknown_declaration.detect. intros ->.
  apply classify_advances.
Qed.

Lemma detect_advances_witness :
  utils.is_next_token_one_of interface_unknown_declaration.other_declarations 0
    [Token item "x"; Token whitespace " "; Token item ":"; Token whitespace " ";
     Token item "in"; Token whitespace " "; Token item "std_logic"; Token item ";"]
  = false
  /\ interface_unknown_declaration.detect 0
       [Token item "x"; Token whitespace " "; Token item ":"; Token whitespace " ";
        Token item "in"; Token whitespace " "; Token item "std_logic"; Token item ";"]
     = Ok (7,
           [Token identifier "x"; Token whitespace " "; Token colon ":";
            Token whitespace " "; Token in_keyword "in"; Token whitespace " ";
            Token subtype_indication_token "std_logic"; Token item ";"])
  /\ 0 < 7.
Proof.
  split; [reflexivity|]. split; [reflexivity|].
  apply (detect_advances 0
           [Token item "x"; Token whitespace " "; Token item ":"; Token whitespace " ";
            Token item "in"; Token whitespace " "; Token item "std_logic"; Token item ";"]
           7
           [Token identifier "x"; Token whitespace " "; Token colon ":";
            Token whitespace " "; Token in_keyword "in"; Token whitespace " ";
            Token subtype_indication_token "std_logic"; Token item ";"]);
    reflexivity.
Defined.

(** C3, the claim as worded, fails: in front of [type] the fallback
    returns the cursor it was given, and without a colon it returns no
    cursor at all. *)
Lemma detect_may_stand_still :
  interface_unknown_declaration.detect 0
    [Token item "type"; Token whitespace " "; Token item "t"; Token item ";"]
  = Ok (0, [Token item "type"; Token whitespace " "; Token item "t"; Token item ";"])
  /\ interface_unknown_declaration.detect 0
       [Token item "x"; Token whitespace " "; Token item "std_logic"; Token item ";"]
     = Err {| expected := ":"; found := None; position := 4 |}
  /\ ~ (forall i l c l',
          interface_unknown_declaration.detect i l = Ok (c, l') -> i < c).
Proof.
  split; [reflexivity|]. split; [reflexivity|].
  intros H.
  specialize (H 0 [Token item "type"; Token whitespace " "; Token item "t"; Token item ";"]
                0 [Token item "type"; Token whitespace " "; Token item "t"; Token item ";"]
                eq_refl).
  lia.
Qed.

(** The error raised where the colon is due. *)
Lemma classify_colon_error i l c l1 :
  identifier_list.classify_until [":"] i l identifier = (c, l1) ->
  utils.is_next_token ":" c l1 = false ->
  interface_unknown_declaration.classify i l
  = Err {| expected := ":";
           found := value <$> utils.next_token c l1;
           position := default (length l1) (utils.find_next_token c l1) |}.
Proof.
  intros Hid Hn. unfold interface_unknown_declaration.classify. rewrite Hid.
  unfold utils.is_next_token, utils.next_token in *.
  unfold utils.assign_next_token_required.
  destruct (utils.find_next_token c l1) as [j|] eqn:Hj; simpl in *; [|done].
  destruct (l1 !! j) as [t|] eqn:Ht; simpl.
  - by rewrite Hn.
  - apply find_next_token_Some in Hj as (_ & t & Ht' & _). congruence.
Qed.

(** The probe only looks at the list from the cursor on. *)
Lemma next_token_drop c l1 l2 :
  drop c l1 = drop c l2 -> utils.next_token c l1 = utils.next_token c l2.
Proof.
  intros H. unfold utils.next_token, utils.find_next_token. rewrite H.
  destruct (utils.next_item (drop c l2)) as [n|]; simpl; [|done].
  by rewrite <- !lookup_drop, H.
Qed.

Lemma next_token_Some c l t :
  utils.next_token c l = Some t ->
  exists j, c <= j /\ l !! j = Some t /\ is_item t = true.
Proof.
  unfold utils.next_token.
  destruct (utils.find_next_token c l) as [j|] eqn:Hj; simpl; [|done].
  apply find_next_token_Some in Hj as (Hle & t' & Ht' & Hi).
  intros Ht. exists j. split; [done|]. split; [done|]. congruence.
Qed.

Lemma next_token_here i l t :
  l !! i = Some t -> is_item t = true -> utils.next_token i l = Some t.
Proof.
  intros Hl Ht. rewrite <- (take_drop_middle l i t Hl).
  assert (Hi : i = length (take i l)).
  { rewrite length_take. apply lookup_lt_Some in Hl. lia. }
  rewrite Hi at 1. by apply (next_token_at (take i l) [] t).
Qed.

(** The scan leaves alone what lies beyond the point it stops at. *)
Lemma scan_until_suffix lUntils assign s : forall depth,
  drop (utils.scan_until lUntils assign depth s).1
       (utils.scan_until lUntils assign depth s).2
  = drop (utils.scan_until lUntils assign depth s).1 s.
Proof.
  induction s as [|t s IH]; intros depth; simpl; [done|].
  destruct (is_item t).
  - destruct (String.eqb (value t) "(").
    { specialize (IH (S depth)). by destruct (utils.scan_until _ _ (S depth) s). }
    destruct (String.eqb (value t) ")").
    { destruct depth as [|d]; [done|].
      specialize (IH d). by destruct (utils.scan_until _ _ d s). }
    destruct (Nat.eqb depth 0 && existsb (String.eqb (value t)) lUntils); [done|].
    specialize (IH depth). by destruct (utils.scan_until _ _ depth s).
  - specialize (IH depth). by destruct (utils.scan_until _ _ depth s).
Qed.

Lemma scan_until_length lUntils assign s : forall depth,
  length (utils.scan_until lUntils assign depth s).2 = length s.
Proof.
  induction s as [|t s IH]; intros depth; simpl; [done|].
  destruct (is_item t).
  - destruct (String.eqb (value t) "(").
    { specialize (IH (S depth)). destruct (utils.scan_until _ _ (S depth) s).
      simpl in *. by rewrite IH. }
    destruct (String.eqb (value t) ")").
    { destruct depth as [|d]; [done|].
      specialize (IH d). destruct (utils.scan_until _ _ d s).
      simpl in *. by rewrite IH. }
    destruct (Nat.eqb depth 0 && existsb (String.eqb (value t)) lUntils); [done|].
    specialize (IH depth). destruct (utils.scan_until _ _ depth s).
    simpl in *. by rewrite IH.
  - specialize (IH depth). destruct (utils.scan_until _ _ depth s).
    simpl in *. by rewrite IH.
Qed.

Lemma classify_region_length lUntils assign i l :
  length (utils.classify_region lUntils assign i l).2 = length l.
Proof.
  unfold utils.classify_region.
  pose proof (scan_until_length lUntils assign (drop i l) 0) as H.
  destruct (utils.scan_until lUntils assign 0 (drop i l)) as [n r]. simpl in *.
  rewrite length_app, H, <- length_app. by rewrite take_drop.
Qed.

Lemma classify_region_suffix lUntils assign i l :
  drop (utils.classify_region lUntils assign i l).1
       (utils.classify_region lUntils assign i l).2
  = drop (utils.classify_region lUntils assign i l).1 l.
Proof.
  unfold utils.classify_region.
  destruct (decide (i <= length l)) as [Hle|Hgt].
  - pose proof (scan_until_suffix lUntils assign (drop i l) 0) as H.
    destruct (utils.scan_until lUntils assign 0 (drop i l)) as [n r]. simpl in *.
    rewrite drop_app_add' by (rewrite length_take; lia).
    by rewrite H, drop_drop.
  - rewrite (drop_ge l i) by lia. simpl.
    rewrite app_nil_r, take_ge by lia. by rewrite Nat.add_0_r.
Qed.

(** The same on the input alone: when no unclassified colon is left from
    the cursor on, classification fails with the error that expects the
    colon and reports the token found where the identifier list stopped. *)
Lemma classify_without_colon i l :
  (forall j t, i <= j -> l !! j = Some t -> is_item t = true -> value t <> ":") ->
  exists c,
    i <= c
    /\ interface_unknown_declaration.classify i l
       = Err {| expected := ":";
                found := value <$> utils.next_token c l;
                position := default (length l) (utils.find_next_token c l) |}.
Proof.
  intros Hno.
  destruct (identifier_list.classify_until [":"] i l identifier) as [c l1] eqn:Hid.
  pose proof (classify_region_ge [":"]
    (fun v => if String.eqb v "," then comma else identifier) i l) as Hge.
  pose proof (classify_region_suffix [":"]
    (fun v => if String.eqb v "," then comma else identifier) i l) as Hd.
  pose proof (classify_region_length [":"]
    (fun v => if String.eqb v "," then comma else identifier) i l) as Hlen.
  unfold identifier_list.classify_until in Hid. rewrite Hid in Hge, Hd, Hlen.
  simpl in Hge, Hd, Hlen.
  exists c. split; [done|].
  rewrite (classify_colon_error i l c l1 Hid).
  - rewrite (next_token_drop c l1 l Hd), Hlen.
    unfold utils.find_next_token. by rewrite Hd.
  - unfold utils.is_next_token. rewrite (next_token_drop c l1 l Hd).
    destruct (utils.next_token c l) as [t|] eqn:Ht; [|done].
    apply next_token_Some in Ht as (j & Hj & Hlj & Hi).
    apply String.eqb_neq. apply (Hno j t); [lia|done|done].
Qed.

Lemma assign_next_token_required_next v k c l :
  utils.is_next_token v c l = true ->
  exists c' l', utils.assign_next_token_required v k c l = Ok (c', l').
Proof.
  unfold utils.is_next_token, utils.next_token, utils.assign_next_token_required.
  destruct (utils.find_next_token c l) as [j|]; simpl; [|done].
  destruct (l !! j) as [t|]; [|done]. intros ->. by eexists _, _.
Qed.

(** The colon is the only token whose absence stops the fallback: with
    the colon in its place, classification returns. *)
Lemma classify_with_colon i l c l1 :
  identifier_list.classify_until [":"] i l identifier = (c, l1) ->
  utils.is_next_token ":" c l1 = true ->
  exists c' l', interface_unknown_declaration.classify i l = Ok (c', l').
Proof.
  intros Hid Hn. unfold interface_unknown_declaration.classify. rewrite Hid.
  destruct (assign_next_token_required_next ":" colon c l1 Hn) as (c2 & l2 & ->).
  cbn [mbind result_bind].
  destruct (mode.classify c2 l2) as [c3 l3].
  destruct (subtype_indication.classify_until _ c3 l3) as [c4 l4].
  destruct (utils.assign_next_token_if "bus" bus_keyword c4 l4) as [c5 l5].
  destruct (utils.is_next_token ":=" c5 l5) eqn:Ha; [|by eexists _, _].
  destruct (assign_next_token_required_next ":=" assignment c5 l5 Ha)
    as (c6 & l6 & ->).
  cbn [mbind result_bind].
  destruct (expression.classify_until ";" c6 l6) as [c7 l7]. by eexists _, _.
Qed.

(** C4 (as amended).  When no colon is left in the list from the cursor
    on, classification fails: the result is the error naming the colon as
    the token expected, with the text of the token found where the
    identifier list ends (none at the end of the list) and with the place
    where it stands; the token found is not a colon, and no cursor is
    returned. *)
Theorem classify_missing_colon i l :
  (forall j t, i <= j -> l !! j = Some t -> is_item t = true -> value t <> ":") ->
  exists c,
    i <= c
    /\ interface_unknown_declaration.classify i l
       = Err {| expected := ":";
                found := value <$> utils.next_token c l;
                position := default (length l) (utils.find_next_token c l) |}
    /\ value <$> utils.next_token c l <> Some ":".
Proof.
  intros Hno. destruct (classify_without_colon i l Hno) as (c & Hic & Herr).
  exists c. split; [done|]. split; [done|].
  destruct (utils.next_token c l) as [t|] eqn:Ht; [|done].
  apply next_token_Some in Ht as (j & Hj & Hlj & Hi). simpl.
  intros [= Hv]. apply (Hno j t); [lia|done|done|done].
Qed.

Lemma classify_missing_colon_witness :
  exists c,
    0 <= c
    /\ interface_unknown_declaration.classify 0
         [Token item "x"; Token whitespace " "; Token item "std_logic";
          Token whitespace " "; Token item ";"]
       = Err {| expected := ":";
                found := value <$> utils.next_token c
                           [Token item "x"; Token whitespace " ";
                            Token item "std_logic"; Token whitespace " ";
                            Token item ";"];
                position := default
                              (length [Token item "x"; Token whitespace " ";
                                       Token item "std_logic"; Token whitespace " ";
                                       Token item ";"])
                              (utils.find_next_token c
                                 [Token item "x"; Token whitespace " ";
                                  Token item "std_logic"; Token whitespace " ";
                                  Token item ";"]) |}
    /\ value <$> utils.next_token c
                   [Token item "x"; Token whitespace " "; Token item "std_logic";
                    Token whitespace " "; Token item ";"]
       <> Some ":".
Proof.
  apply (classify_missing_colon 0
           [Token item "x"; Token whitespace " "; Token item "std_logic";
            Token whitespace " "; Token item ";"]).
  intros j t _ Hj Hi.
  do 5 (destruct j as [|j]; [injection Hj as <-; discriminate|]).
  discriminate Hj.
Defined.

(** What the error is on that declaration. *)
Lemma classify_missing_colon_example :
  interface_unknown_declaration.classify 0
    [Token item "x"; Token whitespace " "; Token item "std_logic";
     Token whitespace " "; Token item ";"]
  = Err {| expected := ":"; found := None; position := 5 |}.
Proof. reflexivity. Qed.

(** C4, the claim as worded, fails where a colon comes later in the list:
    in [x std_logic ;] followed by [y : bit ;] the colon of the first
    declaration is missing, yet classification succeeds; the identifier
    list runs on to the colon of the second declaration, the semicolon in
    between is classified as an identifier, and a cursor is returned. *)
Lemma classify_takes_later_colon :
  interface_unknown_declaration.classify 0
    [Token item "x"; Token whitespace " "; Token item "std_logic";
     Token whitespace " "; Token item ";"; new_carriage_return;
     Token item "y"; Token whitespace " "; Token item ":"; Token whitespace " ";
     Token item "bit"; Token whitespace " "; Token item ";"]
  = Ok (12,
        [Token identifier "x"; Token whitespace " "; Token identifier "std_logic";
         Token whitespace " "; Token identifier ";"; new_carriage_return;
         Token identifier "y"; Token whitespace " "; Token colon ":";
         Token whitespace " "; Token subtype_indication_token "bit";
         Token whitespace " "; Token item ";"]).
Proof. reflexivity. Qed.


(** C10.  In front of [type], [file], [function], [procedure], [impure],
    [pure] or [package] the fallback returns the cursor it received and
    the token list untouched, be the keyword at the cursor itself or the
    next token after layout; in front of anything else it is [classify]. *)
Theorem detect_dispatch i l :
  (forall t, l !! i = Some t -> is_item t = true ->
     existsb (String.eqb (value t))
       ["type"; "file"; "function"; "procedure"; "impure"; "pure"; "package"] = true ->
     interface_unknown_declaration.detect i l = Ok (i, l))
  /\ (utils.is_next_token_one_of
        ["type"; "file"; "function"; "procedure"; "impure"; "pure"; "package"] i l = true ->
      interface_unknown_declaration.detect i l = Ok (i, l))
  /\ (utils.is_next_token_one_of
        ["type"; "file"; "function"; "procedure"; "impure"; "pure"; "package"] i l = false ->
      interface_unknown_declaration.detect i l
      = interface_unknown_declaration.classify i l).
Proof.
  unfold interface_unknown_declaration.detect,
    interface_unknown_declaration.other_declarations.
  split; [|split].
  - intros t Hl Ht Hk. unfold utils.is_next_token_one_of.
    by rewrite (next_token_here i l t Hl Ht), Hk.
  - by intros ->.
  - by intros ->.
Qed.

Lemma detect_dispatch_witness :
  interface_unknown_declaration.detect 1
    [Token whitespace " "; Token item "function"; Token whitespace " "; Token item "f"]
  = Ok (1, [Token whitespace " "; Token item "function"; Token whitespace " ";
            Token item "f"])
  /\ interface_unknown_declaration.detect 0
       [Token whitespace " "; Token item "function"; Token whitespace " "; Token item "f"]
     = Ok (0, [Token whitespace " "; Token item "function"; Token whitespace " ";
               Token item "f"])
  /\ interface_unknown_declaration.detect 0
       [Token item "x"; Token item ":"; Token item "bit"; Token item ";"]
     = interface_unknown_declaration.classify 0
         [Token item "x"; Token item ":"; Token item "bit"; Token item ";"].
Proof.
  split; [|split].
  - apply (proj1 (detect_dispatch 1
             [Token whitespace " "; Token item "function"; Token whitespace " ";
              Token item "f"]) (Token item "function")); reflexivity.
  - apply (proj1 (proj2 (detect_dispatch 0
             [Token whitespace " "; Token item "function"; Token whitespace " ";
              Token item "f"]))); reflexivity.
  - apply (proj2 (proj2 (detect_dispatch 0
             [Token item "x"; Token item ":"; Token item "bit"; Token item ";"])));
      reflexivity.
Defined.

(** ** [interface_unknown_declaration]: failure and frame *)

(** X1.  [detect] can fail in one way only, at the colon that must
    follow the identifier list: the error names [:] as the token expected
    and a token found that is not a colon (or none, at the end of the
    stream).  The requirement of [:=] never fails, as it is made only
    after the probe has seen that token. *)
Theorem detect_only_fails_on_colon i l e :
  interface_unknown_declaration.detect i l = Err e ->
  expected e = ":" /\ found e <> Some ":".
Proof.
  unfold interface_unknown_declaration.detect.
  destruct (utils.is_next_token_one_of _ i l); [done|].
  destruct (identifier_list.classify_until [":"] i l identifier) as [c l1] eqn:Hid.
  destruct (utils.is_next_token ":" c l1) eqn:Hcolon.
  - destruct (classify_with_colon i l c l1 Hid Hcolon) as (c' & l' & ->). done.
  - rewrite (classify_colon_error i l c l1 Hid Hcolon). intros [= <-]. simpl.
    split; [done|]. unfold utils.is_next_token in Hcolon.
    destruct (utils.next_token c l1) as [t|]; simpl; [|done].
    intros [= Hv]. rewrite Hv in Hcolon. by rewrite String.eqb_refl in Hcolon.
Qed.

Lemma detect_only_fails_on_colon_witness :
  expected {| expected := ":"; found := Some ")"; position := 1 |} = ":"
  /\ found {| expected := ":"; found := Some ")"; position := 1 |} <> Some ":".
Proof.
  apply (detect_only_fails_on_colon 0 [Token item "a"; Token item ")"]).
  vm_compute. reflexivity.
Defined.

Lemma retagged_refl i l : retagged i l l.
Proof. split; [done|]. intros j t Hj. by exists t. Qed.

Lemma retagged_trans i l l1 l2 :
  retagged i l l1 -> retagged i l1 l2 -> retagged i l l2.
Proof.
  intros [Hlen1 H1] [Hlen2 H2]. split; [congruence|]. intros j t Hj.
  destruct (H1 j t Hj) as (t1 & Hj1 & Hv1 & Hk1).
  destruct (H2 j t1 Hj1) as (t2 & Hj2 & Hv2 & Hk2).
  exists t2. split; [done|]. split; [congruence|]. intros Hc.
  specialize (Hk1 Hc). subst t1. by apply Hk2.
Qed.

Lemma retagged_le i c l l' : i <= c -> retagged c l l' -> retagged i l l'.
Proof.
  intros Hic [Hlen H]. split; [done|]. intros j t Hj.
  destruct (H j t Hj) as (t' & Hj' & Hv & Hk). exists t'. split; [done|].
  split; [done|]. intros [Hlt|Hi]; apply Hk; [left; lia|by right].
Qed.

Lemma assign_token_retagged i l j t k :
  l !! j = Some t -> is_item t = true -> i <= j ->
  retagged i l (utils.assign_token l j k).
Proof.
  intros Hj Ht Hij. unfold utils.assign_token. split; [apply length_alter|].
  intros j' t' Hj'. destruct (decide (j = j')) as [<-|Hne].
  - rewrite list_lookup_alter_eq, Hj. simpl. eexists. split; [done|].
    assert (t' = t) as -> by congruence. split; [done|].
    intros [Hlt|Hi]; [lia|congruence].
  - rewrite list_lookup_alter_ne by done. by exists t'.
Qed.

Lemma assign_next_token_required_retagged v k i l c l' :
  utils.assign_next_token_required v k i l = Ok (c, l') -> retagged i l l'.
Proof.
  unfold utils.assign_next_token_required.
  destruct (utils.find_next_token i l) as [j|] eqn:Hf; [|done].
  apply find_next_token_Some in Hf as (Hij & t & Hj & Ht). rewrite Hj.
  destruct (String.eqb (value t) v); [|done]. intros [= <- <-].
  by apply (assign_token_retagged i l j t).
Qed.

Lemma assign_next_token_if_retagged v k i l :
  retagged i l (utils.assign_next_token_if v k i l).2.
Proof.
  unfold utils.assign_next_token_if.
  destruct (utils.find_next_token i l) as [j|] eqn:Hf; [|apply retagged_refl].
  apply find_next_token_Some in Hf as (Hij & t & Hj & Ht).
  destruct (utils.is_next_token v i l); [|apply retagged_refl].
  by apply (assign_token_retagged i l j t).
Qed.

Lemma mode_classify_retagged i l : retagged i l (mode.classify i l).2.
Proof.
  unfold mode.classify.
  destruct (utils.next_token i l) as [t|]; [|apply retagged_refl].
  destruct (mode.lookup_keyword mode.keywords (value t)); [|apply retagged_refl].
  apply assign_next_token_if_retagged.
Qed.

Lemma scan_until_retagged lUntils assign s : forall depth,
  retagged 0 s (utils.scan_until lUntils assign depth s).2.
Proof.
  assert (Hcons : forall (t t' : token) s r,
            value t' = value t -> (is_item t = false -> t' = t) ->
            retagged 0 s r -> retagged 0 (t :: s) (t' :: r)).
  { intros t t' s0 r Hv Hk [Hlen H]. split; [simpl; by rewrite Hlen|].
    intros [|j] t0 Hj; simpl in *.
    - injection Hj as <-. exists t'. split; [done|]. split; [done|].
      intros [Hlt|Hi]; [lia|by apply Hk].
    - destruct (H j t0 Hj) as (t1 & Hj1 & Hv1 & Hk1). exists t1.
      split; [done|]. split; [done|]. intros [Hlt|Hi]; [lia|].
      apply Hk1. by right. }
  induction s as [|t s IH]; intros depth; [apply retagged_refl|]. simpl.
  destruct (is_item t) eqn:Ht.
  - destruct (String.eqb (value t) "(").
    { specialize (IH (S depth)).
      destruct (utils.scan_until lUntils assign (S depth) s) as [n r].
      apply Hcons; [done|congruence|done]. }
    destruct (String.eqb (value t) ")").
    { destruct depth as [|d]; [apply retagged_refl|]. specialize (IH d).
      destruct (utils.scan_until lUntils assign d s) as [n r].
      apply Hcons; [done|congruence|done]. }
    destruct (Nat.eqb depth 0 && _); [apply retagged_refl|].
    specialize (IH depth).
    destruct (utils.scan_until lUntils assign depth s) as [n r].
    apply Hcons; [done|congruence|done].
  - specialize (IH depth).
    destruct (utils.scan_until lUntils assign depth s) as [n r].
    by apply Hcons.
Qed.

Lemma classify_region_retagged lUntils assign i l :
  retagged i l (utils.classify_region lUntils assign i l).2.
Proof.
  unfold utils.classify_region.
  pose proof (scan_until_retagged lUntils assign (drop i l) 0) as [Hlen H].
  destruct (utils.scan_until lUntils assign 0 (drop i l)) as [n r]. simpl in *.
  split.
  - rewrite length_app, Hlen, <- length_app. by rewrite take_drop.
  - intros j t Hj. destruct (decide (j < i)) as [Hlt|Hge].
    + exists t. rewrite lookup_app_l by (rewrite length_take; apply lookup_lt_Some in Hj; lia).
      rewrite lookup_take_lt by done. by split.
    + assert (Hi : length (take i l) = i).
      { rewrite length_take. apply lookup_lt_Some in Hj. lia. }
      rewrite lookup_app_r by lia. rewrite Hi.
      destruct (H (j - i) t) as (t' & Hj' & Hv & Hk).
      { rewrite lookup_drop. rewrite <- Hj. f_equal. lia. }
      exists t'. split; [done|]. split; [done|].
      intros [?|?]; [lia|]. apply Hk. by right.
Qed.

Lemma classify_retagged i l c l' :
  interface_unknown_declaration.classify i l = Ok (c, l') -> retagged i l l'.
Proof.
  unfold interface_unknown_declaration.classify,
    identifier_list.classify_until, subtype_indication.classify_until,
    expression.classify_until.
  pose proof (classify_region_retagged [":"]
                (fun v => if String.eqb v "," then comma else identifier) i l) as R1.
  pose proof (classify_region_ge [":"]
                (fun v => if String.eqb v "," then comma else identifier) i l) as G1.
  destruct (utils.classify_region [":"] _ i l) as [c1 l1]. simpl in R1, G1.
  destruct (utils.assign_next_token_required ":" colon c1 l1) as [[c2 l2]|e] eqn:H2;
    [|done]. simpl.
  pose proof (assign_next_token_required_retagged _ _ _ _ _ _ H2) as R2.
  pose proof (assign_next_token_required_gt _ _ _ _ _ _ H2) as G2.
  pose proof (mode_classify_retagged c2 l2) as R3.
  pose proof (mode_classify_ge c2 l2) as G3.
  destruct (mode.classify c2 l2) as [c3 l3]. simpl in R3, G3.
  pose proof (classify_region_retagged [";"; "bus"; ":="]
                (fun _ => subtype_indication_token) c3 l3) as R4.
  pose proof (classify_region_ge [";"; "bus"; ":="]
                (fun _ => subtype_indication_token) c3 l3) as G4.
  destruct (utils.classify_region [";"; "bus"; ":="] _ c3 l3) as [c4 l4].
  simpl in R4, G4.
  pose proof (assign_next_token_if_retagged "bus" bus_keyword c4 l4) as R5.
  pose proof (assign_next_token_if_ge "bus" bus_keyword c4 l4) as G5.
  destruct (utils.assign_next_token_if "bus" bus_keyword c4 l4) as [c5 l5].
  simpl in R5, G5.
  assert (R05 : retagged i l l5).
  { eapply retagged_trans; [exact R1|].
    eapply retagged_trans; [apply (retagged_le i c1); [lia|exact R2]|].
    eapply retagged_trans; [apply (retagged_le i c2); [lia|exact R3]|].
    eapply retagged_trans; [apply (retagged_le i c3); [lia|exact R4]|].
    apply (retagged_le i c4); [lia|exact R5]. }
  destruct (utils.is_next_token ":=" c5 l5); [|by intros [= <- <-]].
  destruct (utils.assign_next_token_required ":=" assignment c5 l5)
    as [[c6 l6]|e] eqn:H6; [|done]. simpl.
  pose proof (assign_next_token_required_retagged _ _ _ _ _ _ H6) as R6.
  pose proof (assign_next_token_required_gt _ _ _ _ _ _ H6) as G6.
  pose proof (classify_region_retagged [";"] (fun _ => expression_token) c6 l6) as R7.
  destruct (utils.classify_region [";"] _ c6 l6) as [c7 l7]. simpl in R7.
  intros [= <- <-].
  eapply retagged_trans; [exact R05|].
  eapply retagged_trans; [apply (retagged_le i c5); [lia|exact R6]|].
  apply (retagged_le i c6); [lia|exact R7].
Qed.

(** X2.  A successful [detect] assigns classes and does nothing else to
    the token list: the list keeps its length and, position by position,
    its texts; the tokens in front of the cursor it was called with are
    untouched, and so is every token that already carried a class
    (layout included), wherever it stands. *)
Theorem detect_only_assigns_classes i l c l' :
  interface_unknown_declaration.detect i l = Ok (c, l') ->
  length l' = length l
  /\ map value l' = map value l
  /\ take i l' = take i l
  /\ forall j t, l !! j = Some t -> is_item t = false -> l' !! j = Some t.
Proof.
  intros Hd.
  assert (R : retagged i l l').
  { unfold interface_unknown_declaration.detect in Hd.
    destruct (utils.is_next_token_one_of _ i l).
    - injection Hd as <- <-. apply retagged_refl.
    - by apply (classify_retagged i l c). }
  destruct R as [Hlen H]. split; [done|]. split; [|split].
  - apply list_eq. intros j. rewrite !list_lookup_fmap.
    destruct (l !! j) as [t|] eqn:Hj.
    + destruct (H j t Hj) as (t' & -> & Hv & _). simpl. by rewrite Hv.
    + apply lookup_ge_None in Hj. rewrite lookup_ge_None_2 by lia. done.
  - apply list_eq. intros j. destruct (decide (j < i)) as [Hlt|Hge].
    + rewrite !lookup_take_lt by done.
      destruct (l !! j) as [t|] eqn:Hj.
      * destruct (H j t Hj) as (t' & -> & _ & Hk). f_equal. apply Hk. by left.
      * apply lookup_ge_None in Hj. apply lookup_ge_None. lia.
    + rewrite !lookup_take_ge by lia. done.
  - intros j t Hj Ht. destruct (H j t Hj) as (t' & -> & _ & Hk). f_equal.
    apply Hk. by right.
Qed.

Lemma detect_only_assigns_classes_witness :
  length [Token identifier "a"; Token whitespace " "; Token colon ":";
          Token subtype_indication_token "bit"; Token item ";"]
  = length [Token item "a"; Token whitespace " "; Token item ":";
            Token item "bit"; Token item ";"]
  /\ map value [Token identifier "a"; Token whitespace " "; Token colon ":";
                Token subtype_indication_token "bit"; Token item ";"]
     = map value [Token item "a"; Token whitespace " "; Token item ":";
                  Token item "bit"; Token item ";"]
  /\ take 0 [Token identifier "a"; Token whitespace " "; Token colon ":";
             Token subtype_indication_token "bit"; Token item ";"]
     = take 0 [Token item "a"; Token whitespace " "; Token item ":";
               Token item "bit"; Token item ";"]
  /\ forall j t,
       [Token item "a"; Token whitespace " "; Token item ":";
        Token item "bit"; Token item ";"] !! j = Some t ->
       is_item t = false ->
       [Token identifier "a"; Token whitespace " "; Token colon ":";
        Token subtype_indication_token "bit"; Token item ";"] !! j = Some t.
Proof.
  apply (detect_only_assigns_classes 0
           [Token item "a"; Token whitespace " "; Token item ":";
            Token item "bit"; Token item ";"] 4).
  reflexivity.
Defined.

(** ** The blank-line rule: analysis *)

Import blank_line_below_line_ending_with_token.

Lemma any_instance_Exists {HH : Hierarchy} a lToks :
  any_instance a lToks = true <-> Exists (fun t => isinstance t a = true) lToks.
Proof.
  induction lToks as [|t r IH]; simpl.
  - split; [discriminate|]. by intros ?%Exists_nil.
  - rewrite Exists_cons.
    destruct (isinstance t a); [tauto|]. rewrite IH.
    split; [by right|]. by intros [?|?].
Qed.

(** The nested loops of [_is_allowed_token] find an allowed class exactly
    when some token of the range is an instance of a class of the list. *)
Lemma is_allowed_token_spec {HH : Hierarchy} lAllow lToks :
  _is_allowed_token lAllow lToks = true
  <-> Exists (fun t => Exists (fun cls => isinstance t cls = true) lAllow) lToks.
Proof.
  unfold _is_allowed_token.
  assert (skip_flag lAllow lToks = true
          <-> Exists (fun t => Exists (fun cls => isinstance t cls = true) lAllow)
                lToks) as Hs.
  { induction lAllow as [|a r IH]; simpl.
    - split; [discriminate|]. intros Hex. apply Exists_exists in Hex as (t & _ & Hin).
      by apply Exists_nil in Hin.
    - destruct (any_instance a lToks) eqn:Ha.
      + split; [|done]. intros _. apply any_instance_Exists in Ha.
        eapply Exists_impl; [exact Ha|]. intros t Ht. by left.
      + rewrite IH. split.
        * intros Hex. eapply Exists_impl; [exact Hex|]. intros t Ht. by right.
        * intros Hex. apply Exists_exists in Hex as (t & Hin & Hk).
          apply Exists_exists. exists t. split; [done|].
          apply Exists_cons in Hk as [Hk|Hk]; [|done].
          exfalso. assert (any_instance a lToks = true); [|congruence].
          apply any_instance_Exists, Exists_exists. by exists t. }
  destruct (skip_flag lAllow lToks); [tauto|].
  split; [discriminate|]. intros H'. apply Hs in H'. discriminate.
Qed.

Lemma single_blank_line_spec {HH : Hierarchy} lToks :
  Nat.eqb (length lToks) 1
  && match lToks with t :: _ => isinstance t blank_line | [] => false end = true
  <-> match lToks with [t] => isinstance t blank_line = true | _ => False end.
Proof.
  destruct lToks as [|t [|t' r]]; simpl; [done|done|done].
Qed.

Lemma analyze_require_blank_line_violations {HH : Hierarchy} lToi : forall self lAllow,
  violations (_analyze_require_blank_line self lToi lAllow)
  = violations self
    ++ map (insert_violation (solution self))
           (filter (fun oToi => ~ exempt lAllow (get_tokens oToi)) lToi).
Proof.
  induction lToi as [|oToi rest IH]; intros self lAllow; simpl.
  - by rewrite app_nil_r.
  - rewrite filter_cons.
    destruct (_is_allowed_token lAllow (get_tokens oToi)) eqn:Hal.
    { apply is_allowed_token_spec in Hal.
      rewrite decide_False by (intros Hn; apply Hn; by right). apply IH. }
    destruct (Nat.eqb (length (get_tokens oToi)) 1 && _) eqn:Hbl.
    { apply single_blank_line_spec in Hbl.
      rewrite decide_False by (intros Hn; apply Hn; by left). apply IH. }
    rewrite decide_True.
    + rewrite IH. simpl. by rewrite <- app_assoc.
    + intros [Hb|Ha].
      * apply single_blank_line_spec in Hb. congruence.
      * apply is_allowed_token_spec in Ha. congruence.
Qed.

Lemma analyze_no_blank_line_violations lToi : forall self lAllow,
  violations (_analyze_no_blank_line self lToi lAllow)
  = violations self ++ map (remove_violation (solution self)) lToi.
Proof.
  induction lToi as [|oToi rest IH]; intros self lAllow; simpl.
  - by rewrite app_nil_r.
  - rewrite IH. simpl. by rewrite <- app_assoc.
Qed.

Lemma analyze_no_blank_line_allow lToi : forall self lAllow1 lAllow2,
  _analyze_no_blank_line self lToi lAllow1 = _analyze_no_blank_line self lToi lAllow2.
Proof.
  induction lToi as [|oToi rest IH]; intros self lAllow1 lAllow2; simpl; [done|].
  apply IH.
Qed.

(** C6.  In the require-blank-line style the violations recorded for the
    ranges of interest are, in order, one Insert violation for every range
    that is neither a single blank-line token nor holds a token that is
    an instance of a class of the allow list, and none for the others. *)
Theorem require_blank_line_verdict {HH : Hierarchy} self lToi :
  style self = "require_blank_line" ->
  violations (_analyze self lToi)
  = violations self
    ++ map (insert_violation (solution self))
           (filter (fun oToi => ~ exempt (lAllowTokens self) (get_tokens oToi)) lToi).
Proof.
  intros Hs. unfold _analyze. rewrite Hs. simpl.
  apply analyze_require_blank_line_violations.
Qed.

Lemma require_blank_line_verdict_witness :
  violations
    (_analyze (HH := item_hierarchy) (init "process" "011" [production "begin_keyword"] [comment])
       [new_Tokens 3 2 [Token blank_line EmptyString];
        new_Tokens 9 5 [Token whitespace "  "; Token comment "-- note"];
        new_Tokens 14 8 [Token whitespace "  "; Token (production "signal_name") "a"];
        new_Tokens 20 11 [Token blank_line EmptyString; Token blank_line EmptyString]])
  = [insert_violation "Insert blank line below"
       (new_Tokens 14 8 [Token whitespace "  "; Token (production "signal_name") "a"]);
     insert_violation "Insert blank line below"
       (new_Tokens 20 11 [Token blank_line EmptyString; Token blank_line EmptyString])].
Proof.
  apply (require_blank_line_verdict (HH := item_hierarchy)
           (init "process" "011" [production "begin_keyword"] [comment])
           [new_Tokens 3 2 [Token blank_line EmptyString];
            new_Tokens 9 5 [Token whitespace "  "; Token comment "-- note"];
            new_Tokens 14 8 [Token whitespace "  "; Token (production "signal_name") "a"];
            new_Tokens 20 11 [Token blank_line EmptyString; Token blank_line EmptyString]]).
  reflexivity.
Defined.

(** C9.  In the no-blank-line style every range of interest is recorded,
    in order, as a Remove violation, whatever the allow list holds; the
    repair of such a violation leaves it with no tokens, so that the
    rewrite of the stream deletes the span of the range. *)
Theorem no_blank_line_verdict {HH : Hierarchy} self lToi :
  style self = "no_blank_line" ->
  violations (_analyze self lToi)
  = violations self ++ map (remove_violation (solution self)) lToi
  /\ (forall lAllow,
        _analyze_no_blank_line self lToi lAllow = _analyze self lToi)
  /\ (forall oToi oFile,
        exists v,
          _fix_violation (remove_violation (solution self) oToi) = Some v
          /\ violation.get_tokens v = []
          /\ vhdlFile.update oFile [v]
             = take (get_start_index oToi) oFile ++ drop (get_end_index oToi) oFile).
Proof.
  intros Hs. unfold _analyze. rewrite Hs. simpl. split; [|split].
  - apply analyze_no_blank_line_violations.
  - intros lAllow. apply analyze_no_blank_line_allow.
  - intros oToi oFile. eexists. split; [reflexivity|]. split; reflexivity.
Qed.

Lemma no_blank_line_verdict_witness :
  violations
    (_analyze (HH := item_hierarchy)
       (set_violations
          {| name := "process"; identifier := "011";
             solution := "Insert blank line below"; phase := 3; fixable := true;
             lTokens := [production "begin_keyword"]; lHierarchyLimits := None;
             lAllowTokens := [blank_line]; style := "no_blank_line";
             configuration := []; violations := [] |} [])
       [new_Tokens 3 1 [Token blank_line EmptyString; new_carriage_return]])
  = [remove_violation "Insert blank line below"
       (new_Tokens 3 1 [Token blank_line EmptyString; new_carriage_return])].
Proof.
  apply (proj1 (no_blank_line_verdict
           (set_violations
              {| name := "process"; identifier := "011";
                 solution := "Insert blank line below"; phase := 3; fixable := true;
                 lTokens := [production "begin_keyword"]; lHierarchyLimits := None;
                 lAllowTokens := [blank_line]; style := "no_blank_line";
                 configuration := []; violations := [] |} [])
           [new_Tokens 3 1 [Token blank_line EmptyString; new_carriage_return]]
           eq_refl)).
Defined.

(** ** Lines of a stream *)

Lemma lines_of_nonempty l : vhdlFile.lines_of l <> [].
Proof.
  destruct l as [|t l]; simpl; [done|].
  destruct (vhdlFile.is_carriage_return t); [done|].
  by destruct (vhdlFile.lines_of l).
Qed.

(** A line terminator cuts the lines of a stream in two. *)
Lemma lines_of_app_cr A c B :
  vhdlFile.is_carriage_return c = true ->
  vhdlFile.lines_of (A ++ c :: B) = vhdlFile.lines_of A ++ vhdlFile.lines_of B.
Proof.
  intros Hc. induction A as [|t A IH]; simpl.
  - by rewrite Hc.
  - destruct (vhdlFile.is_carriage_return t); rewrite IH; [done|].
    pose proof (lines_of_nonempty A) as Hne.
    by destruct (vhdlFile.lines_of A).
Qed.

Lemma lines_of_cr_free L :
  cr_free L = true -> vhdlFile.lines_of L = [L].
Proof.
  unfold cr_free. induction L as [|t L IH]; simpl; [done|].
  intros [Ht HL]%andb_true_iff. apply negb_true_iff in Ht.
  by rewrite Ht, IH.
Qed.

Lemma lines_of_unlines L0 rest :
  wf_lines L0 rest ->
  vhdlFile.lines_of (unlines L0 rest) = L0 :: map snd rest.
Proof.
  revert L0. induction rest as [|[c L] r IH]; intros L0 [H0 Hr]; simpl.
  - by apply lines_of_cr_free.
  - apply Forall_cons in Hr as [[Hc HL] Hr]. simpl in *.
    rewrite lines_of_app_cr, lines_of_cr_free by done.
    simpl. f_equal. by apply IH.
Qed.

(** Every stream is made of lines. *)
Lemma unlines_decompose F :
  exists L0 rest, F = unlines L0 rest /\ wf_lines L0 rest.
Proof.
  induction F as [|t F (L0 & rest & -> & H0 & Hr)].
  - exists [], []. split; [done|]. split; [done|constructor].
  - destruct (vhdlFile.is_carriage_return t) eqn:Ht.
    + exists [], ((t, L0) :: rest). split; [done|]. split; [done|].
      constructor; [done|done].
    + exists (t :: L0), rest. split.
      * by destruct rest as [|[c L] r].
      * split; [|done]. unfold cr_free in *. simpl. by rewrite Ht, H0.
Qed.

(** ** The rewrite of the stream *)

Lemma with_blank_lines_head {HH : Hierarchy} lKinds lAllow L r :
  exists tl, with_blank_lines lKinds lAllow L r = L ++ tl.
Proof.
  destruct r as [|[c L'] r]; simpl.
  - exists []. by rewrite app_nil_r.
  - by eexists.
Qed.

Lemma update_app oFile vs1 vs2 :
  vhdlFile.update oFile (vs1 ++ vs2)
  = vhdlFile.update (vhdlFile.update oFile vs2) vs1.
Proof. unfold vhdlFile.update. by rewrite foldr_app. Qed.

Lemma lines_below_cons lKinds s n L1 L2 ls :
  vhdlFile.lines_below lKinds s n (L1 :: L2 :: ls)
  = (if vhdlFile.ends_with lKinds L1
     then [new_Tokens (s + length L1 + 1) (n + 1) L2] else [])
    ++ vhdlFile.lines_below lKinds (s + length L1 + 1) (n + 1) (L2 :: ls).
Proof. reflexivity. Qed.

(** Splicing the repaired ranges into the stream puts the blank lines
    where they were found missing. *)
Lemma update_with_blank_lines {HH : Hierarchy} lKinds lAllow sSolution rest : forall L0 P n,
  vhdlFile.update (P ++ unlines L0 rest)
    (map (repaired_insert sSolution)
       (filter (fun oToi => ~ exempt lAllow (get_tokens oToi))
          (vhdlFile.lines_below lKinds (length P) n (L0 :: map snd rest))))
  = P ++ with_blank_lines lKinds lAllow L0 rest.
Proof.
  induction rest as [|[c L] r IH]; intros L0 P n; [done|].
  cbn [map snd unlines with_blank_lines]. rewrite lines_below_cons.
  rewrite filter_app, map_app, update_app.
  specialize (IH L (P ++ L0 ++ [c]) (n + 1)%Z).
  replace (length (P ++ L0 ++ [c])) with (length P + length L0 + 1) in IH
    by (rewrite !length_app; simpl; lia).
  replace (P ++ L0 ++ c :: unlines L r) with ((P ++ L0 ++ [c]) ++ unlines L r)
    by (rewrite <- !app_assoc; done).
  rewrite IH.
  destruct (with_blank_lines_head lKinds lAllow L r) as [tl Htl].
  destruct (vhdlFile.ends_with lKinds L0); cbn [andb].
  - rewrite filter_cons, filter_nil. cbn [get_tokens new_Tokens].
    destruct (decide (~ exempt lAllow L)) as [Hn|Hn].
    + rewrite bool_decide_eq_true_2 by done. simpl.
      unfold violation.get_tokens. simpl. rewrite Htl.
      rewrite take_app_length' by (rewrite !length_app; simpl; lia).
      rewrite (app_assoc _ L tl).
      rewrite drop_app_length' by (rewrite !length_app; simpl; lia).
      rewrite <- !app_assoc. done.
    + rewrite bool_decide_eq_false_2 by done. simpl.
      rewrite <- !app_assoc. done.
  - rewrite filter_nil. simpl. rewrite <- !app_assoc. done.
Qed.

Lemma cr_free_blank_line : cr_free [new_blank_line] = true.
Proof. reflexivity. Qed.

Lemma lines_of_with_blank_lines {HH : Hierarchy} lKinds lAllow rest : forall L0,
  wf_lines L0 rest ->
  vhdlFile.lines_of (with_blank_lines lKinds lAllow L0 rest)
  = lines_with_blank_lines lKinds lAllow L0 rest.
Proof.
  induction rest as [|[c L] r IH]; intros L0 [H0 Hr]; simpl.
  - by apply lines_of_cr_free.
  - apply Forall_cons in Hr as [[Hc HL] Hr]. simpl in *.
    rewrite lines_of_app_cr, lines_of_cr_free by done. cbn [app]. f_equal.
    destruct (vhdlFile.ends_with lKinds L0 && bool_decide (~ exempt lAllow L));
      cbn [app].
    + change (new_blank_line :: new_carriage_return :: ?x)
        with ([new_blank_line] ++ new_carriage_return :: x).
      rewrite (lines_of_app_cr [new_blank_line] new_carriage_return) by done.
      rewrite (lines_of_cr_free [new_blank_line]) by done.
      cbn [app]. f_equal. by apply IH.
    + by apply IH.
Qed.

Lemma lines_with_blank_lines_head {HH : Hierarchy} lKinds lAllow L r :
  exists tl, lines_with_blank_lines lKinds lAllow L r = L :: tl.
Proof. destruct r as [|[c L'] r]; simpl; by eexists. Qed.

(** After the rewrite, whatever lies below a line ending with one of
    [lKinds] is exempt. *)
Lemma lines_below_with_blank_lines {HH : Hierarchy} lKinds lAllow rest : forall L0 s n,
  blank_line ∉ lKinds ->
  Forall (fun oToi => exempt lAllow (get_tokens oToi))
    (vhdlFile.lines_below lKinds s n (lines_with_blank_lines lKinds lAllow L0 rest)).
Proof.
  induction rest as [|[c L] r IH]; intros L0 s n Hb; [constructor|].
  cbn [lines_with_blank_lines].
  assert (Hblank : vhdlFile.ends_with lKinds [new_blank_line] = false).
  { unfold vhdlFile.ends_with. simpl. apply not_true_iff_false.
    intros H. apply existsb_exists in H as (k & Hin & Hk).
    unfold has_class in Hk. apply bool_decide_eq_true in Hk. simpl in Hk.
    subst k. apply Hb. by apply list_elem_of_In. }
  pose proof (IH L) as IHL.
  destruct (lines_with_blank_lines_head lKinds lAllow L r) as [tl Htl].
  rewrite Htl in *.
  destruct (vhdlFile.ends_with lKinds L0) eqn:He; cbn [andb].
  - destruct (decide (~ exempt lAllow L)) as [Hn|Hn].
    + rewrite bool_decide_eq_true_2 by done. cbn [app].
      rewrite !lines_below_cons, He, Hblank. cbn [app].
      constructor; [left; apply issubclass_refl|]. by apply IHL.
    + rewrite bool_decide_eq_false_2 by done. cbn [app].
      rewrite lines_below_cons, He. cbn [app].
      constructor; [|by apply IHL].
      cbn [get_tokens new_Tokens]. by destruct (decide (exempt lAllow L)).
  - cbn [app]. rewrite lines_below_cons, He. cbn [app]. by apply IHL.
Qed.

(** ** The blank-line rule: analysis, repair and analysis again *)

Lemma set_violations_twice self vs1 vs2 :
  set_violations (set_violations self vs1) vs2 = set_violations self vs2.
Proof. reflexivity. Qed.

(** The analysis touches nothing of the rule but its violations. *)
Lemma analyze_require_blank_line_frame {HH : Hierarchy} lToi : forall self lAllow,
  _analyze_require_blank_line self lToi lAllow
  = set_violations self (violations (_analyze_require_blank_line self lToi lAllow)).
Proof.
  induction lToi as [|oToi rest IH]; intros self lAllow; simpl.
  - by destruct self.
  - destruct (_is_allowed_token lAllow (get_tokens oToi)); [apply IH|].
    destruct (Nat.eqb (length (get_tokens oToi)) 1 && _); [apply IH|].
    rewrite IH at 1. reflexivity.
Qed.

Lemma analyze_no_blank_line_frame lToi : forall self lAllow,
  _analyze_no_blank_line self lToi lAllow
  = set_violations self (violations (_analyze_no_blank_line self lToi lAllow)).
Proof.
  induction lToi as [|oToi rest IH]; intros self lAllow; simpl.
  - by destruct self.
  - rewrite IH at 1. reflexivity.
Qed.

Lemma analyze_frame {HH : Hierarchy} X self oFile :
  analyze X self oFile = set_violations self (violations (analyze X self oFile)).
Proof.
  unfold analyze, _analyze. cbn [style set_violations lAllowTokens].
  destruct (String.eqb (style self) "require_blank_line").
  - rewrite analyze_require_blank_line_frame at 1. reflexivity.
  - destruct (String.eqb (style self) "no_blank_line").
    + rewrite analyze_no_blank_line_frame at 1. reflexivity.
    + reflexivity.
Qed.

(** What the analysis of the require-blank-line style records on a
    stream. *)
Lemma analyze_require_blank_line {HH : Hierarchy} X self oFile :
  style self = "require_blank_line" -> lHierarchyLimits self = None ->
  violations (analyze X self oFile)
  = map (insert_violation (solution self))
      (filter (fun oToi => ~ exempt (lAllowTokens self) (get_tokens oToi))
         (vhdlFile.get_line_below_line_ending_with_token oFile (lTokens self))).
Proof.
  intros Hs Hl. unfold analyze, _analyze, _get_tokens_of_interest.
  cbn [style set_violations lAllowTokens]. rewrite Hs, Hl. simpl.
  by rewrite analyze_require_blank_line_violations.
Qed.

Lemma fix_insert_violations sSolution l :
  mapM _fix_violation (map (insert_violation sSolution) l)
  = Some (map (repaired_insert sSolution) l).
Proof.
  induction l as [|oToi l IH]; [done|].
  simpl. simpl in IH. by rewrite IH.
Qed.

Lemma filter_all_exempt {HH : Hierarchy} lAllow (l : list Tokens) :
  Forall (fun oToi => exempt lAllow (get_tokens oToi)) l ->
  filter (fun oToi => ~ exempt lAllow (get_tokens oToi)) l = [].
Proof.
  induction 1 as [|oToi l Hx Hl IH]; [done|].
  rewrite filter_cons, decide_False by tauto. done.
Qed.

(** One repair pass of the require-blank-line style, on a stream cut
    into lines. *)
Lemma fix_require_blank_line {HH : Hierarchy} X self L0 rest :
  fixable self = true ->
  style self = "require_blank_line" -> lHierarchyLimits self = None ->
  wf_lines L0 rest ->
  fix_ X self (unlines L0 rest)
  = Some (set_violations self [],
          with_blank_lines (lTokens self) (lAllowTokens self) L0 rest).
Proof.
  intros Hf Hs Hl Hwf. unfold fix_. rewrite Hf.
  rewrite (analyze_require_blank_line X self _ Hs Hl).
  rewrite fix_insert_violations. cbn [mbind option_bind].
  rewrite (analyze_frame X self). rewrite set_violations_twice.
  f_equal. f_equal.
  unfold vhdlFile.get_line_below_line_ending_with_token.
  rewrite lines_of_unlines by done.
  apply (update_with_blank_lines _ _ _ rest L0 [] 1%Z).
Qed.

(** Analysing the repaired stream records nothing. *)
Lemma analyze_with_blank_lines {HH : Hierarchy} X self L0 rest :
  style self = "require_blank_line" -> lHierarchyLimits self = None ->
  blank_line ∉ lTokens self ->
  wf_lines L0 rest ->
  violations
    (analyze X self (with_blank_lines (lTokens self) (lAllowTokens self) L0 rest))
  = [].
Proof.
  intros Hs Hl Hb Hwf.
  rewrite (analyze_require_blank_line X self _ Hs Hl).
  unfold vhdlFile.get_line_below_line_ending_with_token.
  rewrite lines_of_with_blank_lines by done.
  rewrite filter_all_exempt; [done|].
  by apply lines_below_with_blank_lines.
Qed.

(** Repair, then analysis: nothing is left to report, on any stream. *)
Lemma fix_then_analyze {HH : Hierarchy} X self oFile :
  fixable self = true ->
  style self = "require_blank_line" -> lHierarchyLimits self = None ->
  blank_line ∉ lTokens self ->
  exists oFile',
    fix_ X self oFile = Some (set_violations self [], oFile')
    /\ violations (analyze X (set_violations self []) oFile') = [].
Proof.
  intros Hf Hs Hl Hb.
  destruct (unlines_decompose oFile) as (L0 & rest & -> & Hwf).
  eexists. split; [by apply fix_require_blank_line|].
  by apply (analyze_with_blank_lines X (set_violations self [])).
Qed.

(** ** The blank-line scenario *)

Lemma span_app ls1 ls2 : span (ls1 ++ ls2) = span ls1 + span ls2.
Proof. apply sum_list_with_app. Qed.

Lemma span_lines_of l : span (vhdlFile.lines_of l) = length l + 1.
Proof.
  induction l as [|t l IH]; simpl; [done|].
  destruct (vhdlFile.is_carriage_return t).
  - unfold span in *. simpl. lia.
  - pose proof (lines_of_nonempty l) as Hne.
    destruct (vhdlFile.lines_of l) as [|L ls]; [done|].
    unfold span in *. simpl in *. lia.
Qed.

Lemma lines_of_head B : forall L2 after,
  vhdlFile.lines_of B = L2 :: after -> exists B', B = L2 ++ B'.
Proof.
  induction B as [|t B IH]; intros L2 after; simpl.
  - intros [= <- _]. by exists [].
  - destruct (vhdlFile.is_carriage_return t).
    + intros [= <- _]. by eexists.
    + pose proof (lines_of_nonempty B) as Hne.
      destruct (vhdlFile.lines_of B) as [|L ls]; [done|].
      intros [= <- _]. destruct (IH L ls eq_refl) as [B' ->].
      by exists B'.
Qed.

Lemma lines_below_none lKinds ls : forall s n,
  Forall (fun L => vhdlFile.ends_with lKinds L = false) ls ->
  vhdlFile.lines_below lKinds s n ls = [].
Proof.
  induction ls as [|L1 ls IH]; intros s n Hall; [done|].
  apply Forall_cons in Hall as [H1 Hall].
  destruct ls as [|L2 ls]; [done|].
  rewrite lines_below_cons, H1. by apply IH.
Qed.

Lemma lines_below_skip lKinds pre : forall s n L ls,
  Forall (fun L => vhdlFile.ends_with lKinds L = false) pre ->
  vhdlFile.lines_below lKinds s n (pre ++ L :: ls)
  = vhdlFile.lines_below lKinds (s + span pre) (n + Z.of_nat (length pre)) (L :: ls).
Proof.
  induction pre as [|L1 pre IH]; intros s n L ls Hall.
  - cbn [app length]. replace (s + span []) with s by (unfold span; simpl; lia).
    by replace (n + Z.of_nat 0)%Z with n by lia.
  - apply Forall_cons in Hall as [H1 Hall].
    assert (exists L2 ls2, pre ++ L :: ls = L2 :: ls2) as (L2 & ls2 & Heq).
    { destruct pre; simpl; by eexists _, _. }
    cbn [app]. rewrite Heq, lines_below_cons, H1, <- Heq. cbn [app].
    rewrite IH by done.
    replace (s + length L1 + 1 + span pre) with (s + span (L1 :: pre))
      by (unfold span; simpl; lia).
    by replace (n + 1 + Z.of_nat (length pre))%Z
      with (n + Z.of_nat (length (L1 :: pre)))%Z by (rewrite length_cons; lia).
Qed.

(** C5 (as amended).  Take a fixable rule in the require-blank-line style,
    without hierarchy limits, that does not look for the blank-line class
    itself.  Let the stream hold one line ending with a class of the
    rule, directly followed by a line that is not exempt (neither a
    single blank-line token nor holding an instance of an allowed class),
    and no other line ending with such a class.  The analysis records
    exactly one violation; its range is the line below, its line number
    that of the line ending with the class, one less.  The repair puts
    one blank line (a blank-line token and a line terminator) in front of
    the line below and nothing else, and the analysis of the repaired
    stream records nothing. *)
Theorem blank_line_insertion {HH : Hierarchy} X self A cr B before L1 L2 after :
  fixable self = true ->
  style self = "require_blank_line" -> lHierarchyLimits self = None ->
  blank_line ∉ lTokens self ->
  vhdlFile.is_carriage_return cr = true ->
  vhdlFile.lines_of A = before ++ [L1] ->
  vhdlFile.lines_of B = L2 :: after ->
  Forall (fun L => vhdlFile.ends_with (lTokens self) L = false) before ->
  vhdlFile.ends_with (lTokens self) L1 = true ->
  ~ exempt (lAllowTokens self) L2 ->
  Forall (fun L => vhdlFile.ends_with (lTokens self) L = false) (L2 :: after) ->
  violations (analyze X self (A ++ cr :: B))
  = [ {| v_line := Z.of_nat (length before) + 1;
         v_tokens := new_Tokens (length A + 1) (Z.of_nat (length before) + 2) L2;
         v_solution := solution self;
         v_action := Some {| action := "Insert" |} |} ]
  /\ fix_ X self (A ++ cr :: B)
     = Some (set_violations self [],
             A ++ cr :: new_blank_line :: new_carriage_return :: B)
  /\ violations
       (analyze X (set_violations self [])
          (A ++ cr :: new_blank_line :: new_carriage_return :: B))
     = [].
Proof.
  intros Hf Hs Hl Hb Hcr HA HB Hbefore H1 H2 Hafter.
  assert (Htoi : vhdlFile.get_line_below_line_ending_with_token (A ++ cr :: B)
                   (lTokens self)
                 = [new_Tokens (length A + 1) (Z.of_nat (length before) + 2) L2]).
  { unfold vhdlFile.get_line_below_line_ending_with_token.
    rewrite lines_of_app_cr, HA, HB, <- app_assoc by done. cbn [app].
    rewrite lines_below_skip by done.
    rewrite lines_below_cons, H1, lines_below_none by done.
    pose proof (span_lines_of A) as Hsp. rewrite HA, span_app in Hsp.
    unfold span at 2 in Hsp. simpl in Hsp. simpl.
    f_equal. f_equal; lia. }
  assert (Han : violations (analyze X self (A ++ cr :: B))
          = [insert_violation (solution self)
               (new_Tokens (length A + 1) (Z.of_nat (length before) + 2) L2)]).
  { rewrite (analyze_require_blank_line X self _ Hs Hl), Htoi.
    rewrite filter_cons, decide_True by done. done. }
  assert (Hfix : fix_ X self (A ++ cr :: B)
          = Some (set_violations self [],
                  A ++ cr :: new_blank_line :: new_carriage_return :: B)).
  { unfold fix_. rewrite Hf, Han.
    destruct (lines_of_head B L2 after HB) as [B' ->].
    cbn [mapM map _fix_violation insert_violation v_action mbind option_bind
         action String.eqb Ascii.eqb Bool.eqb mret option_ret].
    rewrite (analyze_frame X self), set_violations_twice. f_equal. f_equal.
    unfold vhdlFile.update, violation.get_tokens. simpl.
    replace (A ++ cr :: L2 ++ B') with ((A ++ [cr]) ++ L2 ++ B')
      by (rewrite <- app_assoc; done).
    rewrite take_app_length' by (rewrite length_app; simpl; lia).
    rewrite (app_assoc _ L2 B').
    rewrite drop_app_length' by (rewrite !length_app; simpl; lia).
    rewrite <- !app_assoc. done. }
  split; [|split].
  - rewrite Han. unfold insert_violation. simpl. do 2 f_equal. lia.
  - done.
  - destruct (fix_then_analyze X self (A ++ cr :: B) Hf Hs Hl Hb) as (F' & HF' & Hnone).
    rewrite Hfix in HF'. by injection HF' as <-.
Qed.

Lemma blank_line_insertion_witness :
  violations (analyze (HH := item_hierarchy) no_extract begin_rule
                (process_lines ++ new_carriage_return :: statement_lines))
  = [ {| v_line := 2;
         v_tokens := new_Tokens 4 3 [Token (production "simple_name") "a"];
         v_solution := "Insert blank line below";
         v_action := Some {| action := "Insert" |} |} ]
  /\ fix_ (HH := item_hierarchy) no_extract begin_rule
       (process_lines ++ new_carriage_return :: statement_lines)
     = Some (set_violations begin_rule [],
             process_lines ++ new_carriage_return
               :: new_blank_line :: new_carriage_return :: statement_lines)
  /\ violations
       (analyze (HH := item_hierarchy) no_extract (set_violations begin_rule [])
          (process_lines ++ new_carriage_return
             :: new_blank_line :: new_carriage_return :: statement_lines))
     = [].
Proof.
  apply (blank_line_insertion no_extract begin_rule
           process_lines new_carriage_return statement_lines
           [[Token (production "process_keyword") "process"]]
           [Token (production "begin_keyword") "begin"]
           [Token (production "simple_name") "a"]
           [[]]).
  - reflexivity.
  - reflexivity.
  - reflexivity.
  - refine (@bool_decide_unpack _ _ _). vm_compute. exact I.
  - reflexivity.
  - reflexivity.
  - reflexivity.
  - repeat constructor.
  - reflexivity.
  - refine (@bool_decide_unpack _ _ _). vm_compute. exact I.
  - repeat constructor.
Defined.

(** C5, the claim as worded, fails on the anchor: the violation recorded
    for the line below [begin] (line 3 of the stream) carries the number
    of the line that ends with [begin] (line 2).  It also fails for a
    rule that looks for the blank-line class itself: the blank line the
    repair puts below [begin] then asks for a blank line below it in
    turn, and the analysis of the repaired stream records a violation. *)
Lemma blank_line_violation_anchor :
  (exists v,
     violations (analyze (HH := item_hierarchy) no_extract begin_rule
                   (process_lines ++ new_carriage_return :: statement_lines)) = [v]
     /\ get_tokens (v_tokens v) = [Token (production "simple_name") "a"]
     /\ get_line_number (v_tokens v) = 3%Z
     /\ v_line v = 2%Z
     /\ v_line v <> get_line_number (v_tokens v))
  /\ (exists self' oFile',
        fix_ (HH := item_hierarchy) no_extract
          (init "process" "011" [production "begin_keyword"; blank_line] [comment])
          (process_lines ++ new_carriage_return :: statement_lines)
        = Some (self', oFile')
        /\ violations (analyze (HH := item_hierarchy) no_extract self' oFile') <> []).
Proof.
  split.
  - exists (insert_violation "Insert blank line below"
              (new_Tokens 4 3 [Token (production "simple_name") "a"])).
    repeat split; done.
  - eexists _, _. split; [reflexivity|]. vm_compute. discriminate.
Qed.


(** ** [architecture_010]: repair, then analysis *)

Lemma skip_take_spaces s t :
  architecture.skip_spaces (architecture.take_spaces s ++ t)
  = architecture.skip_spaces t.
Proof.
  induction s as [|c r IH]; simpl; [done|].
  destruct (architecture.is_space c) eqn:Hc; simpl; [|done]. by rewrite Hc.
Qed.

Lemma match_ci_app lit : forall s m r t,
  architecture.match_ci lit s = Some (m, r) ->
  architecture.match_ci lit (m ++ t) = Some (m, t).
Proof.
  induction lit as [|a lit IH]; intros s m r t; simpl.
  - by intros [= <- <-].
  - destruct s as [|c s]; [done|].
    destruct (N.eqb (architecture.lower c) a) eqn:Hc; [|done].
    destruct (architecture.match_ci lit s) as [[m' r']|] eqn:Hm; simpl; [|done].
    intros [= <- <-]. simpl. rewrite Hc. by rewrite (IH s m' r' t Hm).
Qed.

(** A character matched as a small letter of the alphabet is no white
    space. *)
Lemma lower_letter_not_space c :
  (97 <= architecture.lower c <= 122)%N -> architecture.is_space c = false.
Proof.
  intros Hc.
  assert (Hr : (65 <= c <= 122 \/ c = 304 \/ c = 305)%N).
  { unfold architecture.lower in Hc.
    destruct (N.leb_spec 65 c), (N.leb_spec c 90); simpl in Hc; try lia;
      destruct (N.eqb_spec c 304), (N.eqb_spec c 305); simpl in Hc; lia. }
  apply not_true_iff_false. unfold architecture.is_space. intros H.
  rewrite !orb_true_iff, !andb_true_iff, !N.leb_le, !N.eqb_eq in H. lia.
Qed.

(** What matches [end] does not begin with whitespace. *)
Lemma match_end_not_space s m r :
  architecture.match_ci (architecture.codes "end") s = Some (m, r) ->
  forall t, architecture.skip_spaces (m ++ t) = m ++ t.
Proof.
  change (architecture.codes "end") with [101; 110; 100]%N.
  simpl. destruct s as [|c s]; [done|].
  destruct (N.eqb_spec (architecture.lower c) 101) as [Hc|]; [|done].
  destruct s as [|c2 s]; [done|].
  destruct (N.eqb (architecture.lower c2) 110); [|done].
  destruct s as [|c3 s]; [done|].
  destruct (N.eqb (architecture.lower c3) 100); [|done]. simpl.
  intros [= <- <-] t. simpl.
  rewrite lower_letter_not_space; [done|]. lia.
Qed.

(** The substitution leaves a line that the pattern of the analysis
    matches, and that still begins with [end]. *)
Lemma re_sub_end_matches s :
  is_Some (architecture.match_ci (architecture.codes "end")
             (architecture.skip_spaces s)) ->
  architecture.re_match_end_architecture (architecture.re_sub_end s) = true
  /\ is_Some (architecture.match_ci (architecture.codes "end")
                (architecture.skip_spaces (architecture.re_sub_end s))).
Proof.
  intros [[m r] Hm].
  unfold architecture.re_sub_end, architecture.re_match_end_architecture.
  rewrite Hm, skip_take_spaces, (match_end_not_space _ _ _ Hm),
    (match_ci_app _ _ _ _ _ Hm).
  split; [reflexivity|by eexists].
Qed.

Lemma sub_line_clean oLine :
  (architecture.isEndArchitecture oLine = true ->
   architecture.begins_with_end oLine = true) ->
  architecture.clean
    (architecture.update_line oLine (architecture.re_sub_end (architecture.line oLine)))
  = true
  /\ (architecture.isEndArchitecture oLine = true ->
      architecture.begins_with_end
        (architecture.update_line oLine
           (architecture.re_sub_end (architecture.line oLine))) = true).
Proof.
  intros Hwf. unfold architecture.clean, architecture.begins_with_end in *. simpl.
  destruct (architecture.isEndArchitecture oLine); simpl; [|done].
  specialize (Hwf eq_refl). apply bool_decide_eq_true in Hwf.
  destruct (re_sub_end_matches _ Hwf) as [H1 H2].
  split; [done|]. intros _. by apply bool_decide_eq_true.
Qed.

(** The repair of the recorded lines: every line it touches comes out
    clean, no clean line is spoilt. *)
Lemma fix_violations_clean vs : forall lines,
  Forall (fun oLine => architecture.isEndArchitecture oLine = true ->
                       architecture.begins_with_end oLine = true) lines ->
  (forall k, k ∈ vs -> k < length lines) ->
  exists lines',
    architecture._fix_violations vs lines = Some lines'
    /\ length lines' = length lines
    /\ forall j oLine, lines !! j = Some oLine ->
         exists oLine',
           lines' !! j = Some oLine'
           /\ (architecture.clean oLine = true -> architecture.clean oLine' = true)
           /\ (j ∈ vs -> architecture.clean oLine' = true).
Proof.
  induction vs as [|k r IH]; intros lines Hwf Hrange; simpl.
  - exists lines. split; [done|]. split; [done|]. intros j oLine Hj. exists oLine.
    split; [done|]. split; [done|]. by intros ?%elem_of_nil.
  - destruct (lookup_lt_is_Some_2 lines k) as [lk Hk].
    { apply Hrange. by left. }
    rewrite Hk.
    set (lk' := architecture.update_line lk
                  (architecture.re_sub_end (architecture.line lk))).
    assert (Hlk : architecture.isEndArchitecture lk = true ->
                  architecture.begins_with_end lk = true).
    { by apply (Forall_lookup_1 _ _ _ _ Hwf Hk). }
    destruct (sub_line_clean lk Hlk) as [Hclean Hwf'].
    destruct (IH (<[k := lk']> lines)) as (lines' & Hfix & Hlen & Hlines').
    { apply Forall_insert; done. }
    { intros j Hj. rewrite length_insert. apply Hrange. by right. }
    rewrite length_insert in Hlen.
    exists lines'. split; [done|]. split; [done|]. intros j oLine Hj.
    destruct (decide (j = k)) as [->|Hne].
    + assert (oLine = lk) as -> by congruence.
      destruct (Hlines' k lk') as (oLine' & Ho & Hc & _).
      { apply list_lookup_insert_eq. by eapply lookup_lt_Some. }
      exists oLine'. split; [done|]. split; intros _; by apply Hc.
    + destruct (Hlines' j oLine) as (oLine' & Ho & Hc & Hr).
      { by rewrite list_lookup_insert_ne. }
      exists oLine'. split; [done|]. split; [done|].
      intros [?|?]%elem_of_cons; [done|by apply Hr].
Qed.

Lemma analyze_from_frame lines : forall self i,
  architecture.analyze_from self i lines
  = architecture.set_violations self
      (architecture.violations (architecture.analyze_from self i lines)).
Proof.
  induction lines as [|oLine rest IH]; intros self i; simpl.
  - by destruct self.
  - destruct (architecture.isEndArchitecture oLine); [|apply IH].
    destruct (negb _); [|apply IH].
    rewrite IH at 1. reflexivity.
Qed.

(** The analysis records nothing on clean lines. *)
Lemma analyze_from_clean lines : forall self i,
  Forall (fun oLine => architecture.clean oLine = true) lines ->
  architecture.analyze_from self i lines = self.
Proof.
  induction lines as [|oLine rest IH]; intros self i Hall; simpl; [done|].
  apply Forall_cons in Hall as [Hc Hall]. unfold architecture.clean in Hc.
  destruct (architecture.isEndArchitecture oLine); simpl in Hc.
  - rewrite Hc. simpl. by apply IH.
  - by apply IH.
Qed.

(** The analysis records every line that is not clean, and lines of the
    file only. *)
Lemma analyze_from_complete lines : forall self i j oLine,
  lines !! j = Some oLine -> architecture.clean oLine = false ->
  (i + j) ∈ architecture.violations (architecture.analyze_from self i lines).
Proof.
  assert (Hmono : forall lines self i k,
            k ∈ architecture.violations self ->
            k ∈ architecture.violations (architecture.analyze_from self i lines)).
  { intros ls. induction ls as [|oLine rest IH]; intros self i k Hk; simpl; [done|].
    destruct (architecture.isEndArchitecture oLine); [|by apply IH].
    destruct (negb _); [|by apply IH].
    apply IH. simpl. apply elem_of_app. by left. }
  induction lines as [|oLine rest IH]; intros self i j oLine' Hj Hc; [done|].
  destruct j as [|j]; simpl in *.
  - injection Hj as ->. unfold architecture.clean in Hc.
    destruct (architecture.isEndArchitecture oLine'); simpl in Hc; [|done].
    rewrite Hc. simpl. apply Hmono. simpl. apply elem_of_app. right.
    rewrite Nat.add_0_r. by left.
  - replace (i + S j) with (S i + j) by lia.
    destruct (architecture.isEndArchitecture oLine); [|by eapply IH].
    destruct (negb _); by eapply IH.
Qed.

Lemma analyze_from_range lines : forall self i k,
  k ∈ architecture.violations (architecture.analyze_from self i lines) ->
  k ∈ architecture.violations self \/ k < i + length lines.
Proof.
  induction lines as [|oLine rest IH]; intros self i k; simpl; [by left|].
  assert (Hrest : forall self',
            (k ∈ architecture.violations self' ->
             k ∈ architecture.violations self \/ k < i + S (length rest)) ->
            k ∈ architecture.violations (architecture.analyze_from self' (S i) rest) ->
            k ∈ architecture.violations self \/ k < i + S (length rest)).
  { intros self' Hself' Hk. destruct (IH _ _ _ Hk) as [H|H]; [by apply Hself'|].
    right. lia. }
  destruct (architecture.isEndArchitecture oLine); [|apply Hrest; by left].
  destruct (negb _); [|apply Hrest; by left].
  apply Hrest. simpl. intros [H|H]%elem_of_app; [by left|].
  apply list_elem_of_singleton in H as ->. right. lia.
Qed.

(** One repair pass of [architecture_010] and the analysis after it. *)
Lemma architecture_010_fix_then_analyze self lines :
  architecture.fixable self = true ->
  Forall (fun k => k < length lines) (architecture.violations self) ->
  Forall (fun oLine => architecture.isEndArchitecture oLine = true ->
                       architecture.begins_with_end oLine = true) lines ->
  exists self' lines',
    architecture.fix_ self lines = Some (self', lines')
    /\ architecture.violations (architecture.analyze self' lines') = [].
Proof.
  intros Hf Hv Hwf. unfold architecture.fix_. rewrite Hf.
  set (self1 := architecture.analyze self lines).
  destruct (fix_violations_clean (architecture.violations self1) lines Hwf)
    as (lines' & Hfix & Hlen & Hlines').
  { intros k Hk. apply analyze_from_range in Hk as [Hk|Hk]; [|done].
    by apply (proj1 (Forall_forall _ _) Hv). }
  rewrite Hfix. simpl. eexists _, _. split; [done|].
  unfold architecture.analyze. rewrite analyze_from_clean; [done|].
  apply Forall_lookup_2. intros j oLine' Hj.
  destruct (lookup_lt_is_Some_2 lines j) as [oLine Ho].
  { rewrite <- Hlen. by eapply lookup_lt_Some. }
  destruct (Hlines' j oLine Ho) as (oLine'' & Ho' & Hc & Hv').
  assert (oLine'' = oLine') as -> by congruence.
  destruct (architecture.clean oLine) eqn:Hclean; [by apply Hc|].
  apply Hv'. subst self1. unfold architecture.analyze.
  by apply (analyze_from_complete lines self 0 j oLine).
Qed.

(** ** Configuration *)

(** [test_rule_configure], step by step. *)
Lemma test_rule_configure :
  let oRule := <["solution" := rule.PyStr "This is my solution"]>
                 (rule.new (rule.PyStr "xyz") (rule.PyStr "001")) in
  let c1 := rule.with_option "xyz_001" "disable" (rule.PyBool true)
              {| rule.rule_blocks := None |} in
  let c2 := rule.with_option "xyz_002" "disable" (rule.PyBool false) c1 in
  let c3 := rule.with_option "xyz_001" "solution"
              (rule.PyStr "This is the new solution") c2 in
  let c4 := rule.with_option "global" "indentSize" (rule.PyInt 4) c3 in
  let c5 := rule.with_option "xyz_001" "invalidAttribute" (rule.PyBool false) c4 in
  let r1 := rule.configure oRule c1 in
  let r2 := r ← r1; rule.configure r c2 in
  let r3 := r ← r2; rule.configure r c3 in
  let r4 := r ← r3; rule.configure r c4 in
  let r5 := r ← r4; rule.configure r c5 in
  (r ← r1; r !! "disable") = Some (rule.PyBool true)
  /\ (r ← r2; r !! "disable") = Some (rule.PyBool true)
  /\ (r ← r3; r !! "solution") = Some (rule.PyStr "This is the new solution")
  /\ (r ← r4; r !! "indentSize") = Some (rule.PyInt 4)
  /\ (r ← r5; r !! "disable") = Some (rule.PyBool true)
  /\ (r ← r5; r !! "solution") = Some (rule.PyStr "This is the new solution")
  /\ (r ← r5; r !! "indentSize") = Some (rule.PyInt 4)
  /\ (r ← r5; Some (r !! "invalidAttribute")) = Some None.
Proof. cbv zeta. repeat split; vm_compute; reflexivity. Qed.

(** [test_configure_rule_attributes_method], step by step. *)
Lemma test_configure_rule_attributes_method :
  let oRule := rule.new (rule.PyStr "xyz") (rule.PyStr "001") in
  let c0 := {| rule.rule_blocks := None |} in
  let c1 :=
    rule.with_option "xyz_001" "unknown" (rule.PyStr "New")
      (rule.with_option "xyz_001" "fixable" (rule.PyBool false)
         (rule.with_option "xyz_001" "disable" (rule.PyBool true)
            (rule.with_option "xyz_001" "phase" (rule.PyInt 10)
               (rule.with_option "xyz_001" "indentSize" (rule.PyInt 4) c0)))) in
  let r0 := rule.configure oRule c0 in
  let r1 := r ← r0; rule.configure r c1 in
  let r2 :=
    r ← r1;
    rule.configure
      (<["unknown" := rule.PyNone]>
         (<["configuration" := rule.PyList (rule.configuration_list r ++ ["unknown"])]> r))
      c1 in
  (r ← r0; r !! "indentSize") = Some (rule.PyInt 2)
  /\ (r ← r0; r !! "phase") = Some rule.PyNone
  /\ (r ← r0; r !! "disable") = Some (rule.PyBool false)
  /\ (r ← r0; r !! "fixable") = Some (rule.PyBool true)
  /\ (r ← r1; r !! "indentSize") = Some (rule.PyInt 4)
  /\ (r ← r1; r !! "phase") = Some (rule.PyInt 10)
  /\ (r ← r1; r !! "disable") = Some (rule.PyBool true)
  /\ (r ← r1; r !! "fixable") = Some (rule.PyBool false)
  /\ (r ← r1; Some (r !! "unknown")) = Some None
  /\ (rule.configuration_list <$> r1)
     = Some ["indentSize"; "phase"; "disable"; "fixable"; "severity"]
  /\ (r ← r2; r !! "unknown") = Some (rule.PyStr "New")
  /\ (r ← r2; r !! "fixable") = Some (rule.PyBool false)
  /\ (rule.configuration_list <$> r2)
     = Some ["indentSize"; "phase"; "disable"; "fixable"; "severity"; "unknown"].
Proof. cbv zeta. repeat split; vm_compute; reflexivity. Qed.

Lemma apply_block_lookup (self b : gmap string rule.pyvalue) k :
  rule.apply_block self b !! k = (fun v => default v (b !! k)) <$> self !! k.
Proof.
  unfold rule.apply_block. rewrite map_lookup_imap.
  by destruct (self !! k).
Qed.

Lemma apply_block_insert_unknown (self b : gmap string rule.pyvalue) k v :
  self !! k = None ->
  rule.apply_block self (<[k := v]> b) = rule.apply_block self b.
Proof.
  intros Hk. apply map_eq. intros j. rewrite !apply_block_lookup.
  destruct (self !! j) as [w|] eqn:Hj; [|done]. simpl.
  by rewrite lookup_insert_ne by congruence.
Qed.

Lemma apply_block_empty (self : gmap string rule.pyvalue) : rule.apply_block self ∅ = self.
Proof.
  apply map_eq. intros j. rewrite apply_block_lookup.
  destruct (self !! j); [|done]. simpl. by rewrite lookup_empty.
Qed.

Lemma apply_block_unknown (self b : gmap string rule.pyvalue) k :
  self !! k = None -> rule.apply_block self b !! k = None.
Proof. intros Hk. by rewrite apply_block_lookup, Hk. Qed.

(** A block looked up in the blocks as [with_option] leaves them. *)
Lemma with_option_block (self : gmap string rule.pyvalue)
    (blocks : gmap string (gmap string rule.pyvalue)) (sBlock k : string)
    (v : rule.pyvalue) (sName : string) :
  self !! k = None ->
  match (<[sBlock := <[k := v]> (default ∅ (blocks !! sBlock))]> blocks) !! sName with
  | Some b => rule.apply_block self b
  | None => self
  end
  = match blocks !! sName with
    | Some b => rule.apply_block self b
    | None => self
    end.
Proof.
  intros Hk. destruct (decide (sBlock = sName)) as [->|Hne].
  - rewrite lookup_insert_eq, apply_block_insert_unknown by done.
    destruct (blocks !! sName); [done|]. apply apply_block_empty.
  - by rewrite lookup_insert_ne.
Qed.

(** C8 (as amended).  An option whose key names no attribute of the rule
    is passed over, in whichever block it stands: configuring with it
    succeeds or fails exactly as without it and leaves every attribute
    with the value it would have had without it. *)
Theorem configure_ignores_unknown_key (self : gmap string rule.pyvalue)
    (blocks : gmap string (gmap string rule.pyvalue)) (sBlock k : string)
    (v : rule.pyvalue) :
  self !! k = None ->
  rule.configure self
    (rule.with_option sBlock k v {| rule.rule_blocks := Some blocks |})
  = rule.configure self {| rule.rule_blocks := Some blocks |}.
Proof.
  intros Hk. unfold rule.configure, rule.with_option. cbn [rule.rule_blocks].
  change (default ∅ (Some blocks)) with blocks.
  rewrite (with_option_block self blocks sBlock k v "global" Hk).
  set (self1 := match blocks !! "global" with
                | Some g => rule.apply_block self g
                | None => self
                end).
  assert (Hk1 : self1 !! k = None).
  { subst self1. destruct (blocks !! "global"); [|done]. by apply apply_block_unknown. }
  destruct (rule.rule_name self1) as [sName|]; [|done]. simpl.
  f_equal. by apply with_option_block.
Qed.

Lemma configure_ignores_unknown_key_witness :
  rule.configure (rule.new (rule.PyStr "xyz") (rule.PyStr "001"))
    (rule.with_option "xyz_001" "invalidAttribute" (rule.PyBool false)
       {| rule.rule_blocks :=
            Some {[ "xyz_001" := {[ "disable" := rule.PyBool true ]} ]} |})
  = rule.configure (rule.new (rule.PyStr "xyz") (rule.PyStr "001"))
      {| rule.rule_blocks :=
           Some {[ "xyz_001" := {[ "disable" := rule.PyBool true ]} ]} |}.
Proof.
  apply (configure_ignores_unknown_key
           (rule.new (rule.PyStr "xyz") (rule.PyStr "001"))
           {[ "xyz_001" := {[ "disable" := rule.PyBool true ]} ]}
           "xyz_001" "invalidAttribute" (rule.PyBool false)).
  vm_compute. reflexivity.
Defined.

(** C8, the claim as worded, fails: [solution] is not in the
    configuration list of the rule, and yet, being an attribute, it is
    overwritten by the option of that name (as [test_rule_configure]
    expects). *)
Lemma configure_applies_unlisted_attribute :
  ("solution" ∉ rule.configuration_list
                  (<["solution" := rule.PyStr "This is my solution"]>
                     (rule.new (rule.PyStr "xyz") (rule.PyStr "001"))))
  /\ (r ← rule.configure
            (<["solution" := rule.PyStr "This is my solution"]>
               (rule.new (rule.PyStr "xyz") (rule.PyStr "001")))
            {| rule.rule_blocks := Some {[ "xyz_001" := ∅ ]} |};
      r !! "solution")
     = Some (rule.PyStr "This is my solution")
  /\ (r ← rule.configure
            (<["solution" := rule.PyStr "This is my solution"]>
               (rule.new (rule.PyStr "xyz") (rule.PyStr "001")))
            (rule.with_option "xyz_001" "solution"
               (rule.PyStr "This is the new solution")
               {| rule.rule_blocks := Some {[ "xyz_001" := ∅ ]} |});
      r !! "solution")
     = Some (rule.PyStr "This is the new solution").
Proof.
  split; [|split; vm_compute; reflexivity].
  refine (@bool_decide_unpack _ _ _). vm_compute. exact I.
Qed.

(** ** Alignment *)

Lemma cut_Some lKinds line : forall b a x,
  alignment.cut lKinds line = Some (b, a, x) ->
  line = b ++ a :: x
  /\ alignment.is_one_of lKinds a = true
  /\ forallb (fun t => negb (alignment.is_one_of lKinds t)) b = true.
Proof.
  induction line as [|t r IH]; intros b a x; simpl; [discriminate|].
  destruct (alignment.is_one_of lKinds t) eqn:Ht.
  - intros [= <- <- <-]. by rewrite Ht.
  - destruct (alignment.cut lKinds r) as [[[b' a'] x']|]; simpl; [|discriminate].
    intros [= <- <- <-]. destruct (IH b' a' x' eq_refl) as (-> & Ha & Hb).
    simpl. by rewrite Ht, Hb.
Qed.

Lemma cut_app lKinds b a x :
  forallb (fun t => negb (alignment.is_one_of lKinds t)) b = true ->
  alignment.is_one_of lKinds a = true ->
  alignment.cut lKinds (b ++ a :: x) = Some (b, a, x).
Proof.
  induction b as [|t b IH]; simpl; intros Hb Ha.
  - by rewrite Ha.
  - apply andb_true_iff in Hb as [Ht Hb]. apply negb_true_iff in Ht.
    by rewrite Ht, IH.
Qed.

Lemma strip_padding_forallb (P : token -> bool) b :
  forallb P b = true -> forallb P (alignment.strip_padding b) = true.
Proof.
  induction b as [|t r IH]; [done|]. simpl.
  intros [Ht Hr]%andb_true_iff.
  destruct r as [|t' r'].
  - destruct (alignment.is_whitespace t); simpl; [done|]. by rewrite Ht.
  - cbn [forallb]. rewrite Ht. by apply IH.
Qed.

Lemma length_spaces n : String.length (alignment.spaces n) = n.
Proof. induction n as [|n IH]; simpl; [done|]. by rewrite IH. Qed.

Lemma width_app l1 l2 :
  alignment.width (l1 ++ l2) = alignment.width l1 + alignment.width l2.
Proof. apply sum_list_with_app. Qed.

(** Every line that is aligned requires no more than the column
    chosen. *)
Lemma required_column_le self region line c :
  line ∈ region ->
  alignment.begins_with (alignment.lSkip self) line = false ->
  alignment.required_column (alignment.lAlign self) line = Some c ->
  c <= max_list (alignment.required_columns self region).
Proof.
  intros Hin Hs Hc. apply max_list_elem_of_le.
  unfold alignment.required_columns. apply list_elem_of_omap.
  exists line. split; [done|]. by rewrite Hs.
Qed.

(** The token of an aligned line stands at the column asked for, if the
    line requires no more than that. *)
Lemma align_line_column lKinds col line c :
  whitespace ∉ lKinds ->
  alignment.required_column lKinds line = Some c -> c <= col ->
  alignment.token_column lKinds (alignment.align_line lKinds col line) = Some col.
Proof.
  unfold alignment.required_column, alignment.token_column, alignment.align_line.
  intros Hws.
  destruct (alignment.cut lKinds line) as [[[b a] x]|] eqn:Hcut; simpl; [|discriminate].
  intros [= <-] Hle.
  destruct (cut_Some _ _ _ _ _ Hcut) as (_ & Ha & Hb).
  set (pad := Token whitespace (alignment.spaces (col - alignment.width (alignment.strip_padding b)))).
  replace (alignment.strip_padding b ++ pad :: a :: x)
    with ((alignment.strip_padding b ++ [pad]) ++ a :: x)
    by (rewrite <- app_assoc; done).
  rewrite cut_app; [|rewrite forallb_app|done].
  - simpl. rewrite width_app. unfold alignment.width at 2. subst pad. simpl.
    rewrite length_spaces. f_equal. lia.
  - rewrite strip_padding_forallb by done. simpl. rewrite andb_true_r.
    apply negb_true_iff, not_true_iff_false. intros H.
    apply existsb_exists in H as (k & Hin & Hk).
    apply bool_decide_eq_true in Hk. simpl in Hk. subst k.
    apply Hws. by apply list_elem_of_In.
Qed.

(** What the repair does to each line of a region. *)
Lemma fix_region_lines self region i line :
  whitespace ∉ alignment.lAlign self ->
  region !! i = Some line ->
  (alignment.begins_with (alignment.lSkip self) line = true ->
     alignment.fix_region self region !! i = Some line)
  /\ (alignment.begins_with (alignment.lSkip self) line = false ->
      is_Some (alignment.cut (alignment.lAlign self) line) ->
      exists line',
        alignment.fix_region self region !! i = Some line'
        /\ alignment.token_column (alignment.lAlign self) line'
           = Some (max_list (alignment.required_columns self region))).
Proof.
  intros Hws Hi. unfold alignment.fix_region.
  rewrite list_lookup_fmap, Hi. simpl. split.
  - by intros ->.
  - intros Hs [[[b a] x] Hcut]. rewrite Hs. eexists. split; [done|].
    assert (Hreq : alignment.required_column (alignment.lAlign self) line
                   = Some (alignment.width (alignment.strip_padding b) + 1)).
    { unfold alignment.required_column. by rewrite Hcut. }
    apply (align_line_column _ _ _ _ Hws Hreq).
    apply (required_column_le self region line); [|done|done].
    by eapply list_elem_of_lookup_2.
Qed.

(** The repair moves the token, not the code in front of it: the
    first token of a line and the column the line requires are the
    same after the repair. *)
Lemma strip_padding_snoc b pad :
  alignment.is_whitespace pad = true ->
  alignment.strip_padding (b ++ [pad]) = b.
Proof.
  intros Hp. induction b as [|t r IH]; simpl; [by rewrite Hp|].
  destruct (r ++ [pad]) as [|t' r'] eqn:Hr.
  - by destruct r.
  - by rewrite IH.
Qed.

Lemma first_code_align b pad a x :
  alignment.is_whitespace pad = true ->
  alignment.first_code (alignment.strip_padding b ++ pad :: a :: x)
  = alignment.first_code (b ++ a :: x).
Proof.
  intros Hp. induction b as [|t r IH]; simpl; [by rewrite Hp|].
  destruct r as [|t' r'].
  - destruct (alignment.is_whitespace t) eqn:Ht; simpl; [by rewrite Hp|].
    by rewrite Ht.
  - cbn [app alignment.first_code].
    destruct (alignment.is_whitespace t); [apply IH|done].
Qed.

Lemma is_one_of_not_whitespace lKinds t :
  whitespace ∉ lKinds -> alignment.is_one_of lKinds t = true ->
  alignment.is_whitespace t = false.
Proof.
  intros Hws Ht. apply not_true_iff_false. intros Hw.
  apply existsb_exists in Ht as (k & Hin & Hk).
  apply bool_decide_eq_true in Hk. apply bool_decide_eq_true in Hw.
  apply Hws. apply list_elem_of_In. congruence.
Qed.

Lemma align_line_cut lKinds col line b a x :
  whitespace ∉ lKinds ->
  alignment.cut lKinds line = Some (b, a, x) ->
  alignment.cut lKinds (alignment.align_line lKinds col line)
  = Some (alignment.strip_padding b
            ++ [Token whitespace
                  (alignment.spaces (col - alignment.width (alignment.strip_padding b)))],
          a, x).
Proof.
  intros Hws Hcut. unfold alignment.align_line. rewrite Hcut.
  destruct (cut_Some _ _ _ _ _ Hcut) as (_ & Ha & Hb).
  set (pad := Token whitespace _).
  replace (alignment.strip_padding b ++ pad :: a :: x)
    with ((alignment.strip_padding b ++ [pad]) ++ a :: x)
    by (rewrite <- app_assoc; done).
  apply cut_app; [|done].
  rewrite forallb_app, strip_padding_forallb by done. simpl.
  rewrite andb_true_r. apply negb_true_iff, not_true_iff_false. intros H.
  apply (is_one_of_not_whitespace lKinds pad Hws) in H. discriminate H.
Qed.

Lemma align_line_frame self col line :
  whitespace ∉ alignment.lAlign self ->
  alignment.begins_with (alignment.lSkip self)
    (alignment.align_line (alignment.lAlign self) col line)
  = alignment.begins_with (alignment.lSkip self) line
  /\ alignment.required_column (alignment.lAlign self)
       (alignment.align_line (alignment.lAlign self) col line)
     = alignment.required_column (alignment.lAlign self) line.
Proof.
  intros Hws.
  destruct (alignment.cut (alignment.lAlign self) line) as [[[b a] x]|] eqn:Hcut.
  - split.
    + unfold alignment.begins_with, alignment.align_line. rewrite Hcut.
      destruct (cut_Some _ _ _ _ _ Hcut) as (-> & _ & _).
      by rewrite first_code_align.
    + unfold alignment.required_column.
      rewrite (align_line_cut _ col _ _ _ _ Hws Hcut), Hcut. simpl.
      by rewrite strip_padding_snoc.
  - unfold alignment.align_line. by rewrite Hcut.
Qed.

Lemma omap_map_same {A B} (g : A -> option B) (f : A -> A) (l : list A) :
  (forall x, g (f x) = g x) -> omap g (map f l) = omap g l.
Proof.
  intros Hg. induction l as [|x l IH]; [done|].
  simpl. rewrite Hg. destruct (g x); [f_equal|]; exact IH.
Qed.

Lemma fix_region_required_columns self region :
  whitespace ∉ alignment.lAlign self ->
  alignment.required_columns self (alignment.fix_region self region)
  = alignment.required_columns self region.
Proof.
  intros Hws. unfold alignment.fix_region, alignment.required_columns.
  apply omap_map_same. intros line.
  destruct (alignment.begins_with (alignment.lSkip self) line) eqn:Hs.
  - by rewrite Hs.
  - destruct (align_line_frame self
                (max_list (alignment.required_columns self region)) line Hws)
      as [Hb Hr].
    unfold alignment.required_columns in Hb, Hr. by rewrite Hb, Hs, Hr.
Qed.

Lemma analyze_from_aligned self col region : forall i,
  Forall (fun line => alignment.misaligned self col line = false) region ->
  alignment.analyze_from self col i region = [].
Proof.
  induction region as [|line rest IH]; intros i Hall; [done|].
  apply Forall_cons in Hall as [Hl Hr]. simpl. rewrite Hl. by apply IH.
Qed.

(** The repair of a region, then its analysis: no line is left to
    align. *)
Lemma alignment_fix_then_analyze self region :
  whitespace ∉ alignment.lAlign self ->
  alignment.analyze self (alignment.fix_region self region) = [].
Proof.
  intros Hws. unfold alignment.analyze.
  rewrite fix_region_required_columns by done.
  apply analyze_from_aligned. apply Forall_forall. intros line' Hin.
  unfold alignment.fix_region in Hin.
  apply list_elem_of_fmap in Hin as (line & -> & Hin).
  unfold alignment.misaligned.
  destruct (alignment.begins_with (alignment.lSkip self) line) eqn:Hs.
  - by rewrite Hs.
  - destruct (align_line_frame self
                (max_list (alignment.required_columns self region)) line Hws)
      as [-> _].
    rewrite Hs. simpl.
    destruct (alignment.required_column (alignment.lAlign self) line) as [c|] eqn:Hc.
    + rewrite (align_line_column _ _ _ c Hws Hc).
      * by rewrite Nat.eqb_refl.
      * by apply (required_column_le self region line).
    + unfold alignment.required_column in Hc. unfold alignment.align_line.
      destruct (alignment.cut (alignment.lAlign self) line) as [[[b a] x]|] eqn:Hcut;
        [discriminate Hc|].
      unfold alignment.token_column. by rewrite Hcut.
Qed.

(** C7 (as amended).  The repair of [instantiation_029] leaves every line
    of the region that begins with a comment as it is and puts the inline
    comment of every other line at the greatest column required across
    the region, a line requiring for its comment the column one blank
    past the code in front of it.  With inline comments at columns 10, 15
    and 12 that each stand one blank past the code, so that these are the
    columns required, that column is 15. *)
Theorem instantiation_029_aligns_comments region i line :
  region !! i = Some line ->
  (alignment.begins_with [comment] line = true ->
     alignment.fix_region instantiation.rule_029 region !! i = Some line)
  /\ (alignment.begins_with [comment] line = false ->
      is_Some (alignment.cut [comment] line) ->
      exists line',
        alignment.fix_region instantiation.rule_029 region !! i = Some line'
        /\ alignment.token_column [comment] line'
           = Some (max_list (alignment.required_columns instantiation.rule_029 region)))
  /\ (alignment.token_columns instantiation.rule_029 region = [10; 15; 12] ->
      alignment.required_columns instantiation.rule_029 region
      = alignment.token_columns instantiation.rule_029 region ->
      max_list (alignment.required_columns instantiation.rule_029 region) = 15).
Proof.
  intros Hi.
  assert (Hws : whitespace ∉ alignment.lAlign instantiation.rule_029).
  { simpl. by intros [=]%list_elem_of_singleton. }
  destruct (fix_region_lines instantiation.rule_029 region i line Hws Hi) as [H1 H2].
  split; [exact H1|]. split; [exact H2|].
  intros Hcols Hreq. by rewrite Hreq, Hcols.
Qed.

Lemma instantiation_029_aligns_comments_witness :
  (alignment.begins_with [comment]
     [Token whitespace "  "; Token (production "port_map_aspect") "a => b,";
      Token whitespace " "; Token comment "-- one"] = true ->
   alignment.fix_region instantiation.rule_029 instantiation.port_map_lines !! 0
   = Some [Token whitespace "  "; Token (production "port_map_aspect") "a => b,";
           Token whitespace " "; Token comment "-- one"])
  /\ (alignment.begins_with [comment]
        [Token whitespace "  "; Token (production "port_map_aspect") "a => b,";
         Token whitespace " "; Token comment "-- one"] = false ->
      is_Some (alignment.cut [comment]
                 [Token whitespace "  "; Token (production "port_map_aspect") "a => b,";
                  Token whitespace " "; Token comment "-- one"]) ->
      exists line',
        alignment.fix_region instantiation.rule_029 instantiation.port_map_lines !! 0
        = Some line'
        /\ alignment.token_column [comment] line'
           = Some (max_list (alignment.required_columns instantiation.rule_029
                               instantiation.port_map_lines)))
  /\ (alignment.token_columns instantiation.rule_029 instantiation.port_map_lines
      = [10; 15; 12] ->
      alignment.required_columns instantiation.rule_029 instantiation.port_map_lines
      = alignment.token_columns instantiation.rule_029 instantiation.port_map_lines ->
      max_list (alignment.required_columns instantiation.rule_029
                  instantiation.port_map_lines) = 15).
Proof.
  apply (instantiation_029_aligns_comments instantiation.port_map_lines 0
           [Token whitespace "  "; Token (production "port_map_aspect") "a => b,";
            Token whitespace " "; Token comment "-- one"]).
  reflexivity.
Defined.

(** C7, the claim as worded, fails where a comment stands further right
    than its line requires: with the inline comments at columns 10, 15
    and 12, the second behind six blanks, the greatest column required is
    12, and the repair puts the three comments there, not at column
    15. *)
Lemma instantiation_029_padded_comment :
  alignment.token_columns instantiation.rule_029 instantiation.padded_port_map_lines
  = [10; 15; 12]
  /\ alignment.required_columns instantiation.rule_029
       instantiation.padded_port_map_lines
     = [10; 10; 12]
  /\ alignment.token_columns instantiation.rule_029
       (alignment.fix_region instantiation.rule_029
          instantiation.padded_port_map_lines)
     = [12; 12; 12]
  /\ ~ (forall line',
          line' ∈ alignment.fix_region instantiation.rule_029
                    instantiation.padded_port_map_lines ->
          alignment.token_column [comment] line' = Some 15).
Proof.
  split; [reflexivity|]. split; [reflexivity|]. split; [reflexivity|].
  intros Hall.
  specialize (Hall [Token whitespace "  ";
                    Token (production "port_map_aspect") "a => b,";
                    Token whitespace "   "; Token comment "-- one"]).
  assert (Hin : [Token whitespace "  ";
                 Token (production "port_map_aspect") "a => b,";
                 Token whitespace "   "; Token comment "-- one"]
                ∈ alignment.fix_region instantiation.rule_029
                    instantiation.padded_port_map_lines).
  { vm_compute. by left. }
  apply Hall in Hin. vm_compute in Hin. discriminate Hin.
Qed.

(** The region of the scenario, repaired. *)
Lemma instantiation_029_scenario :
  alignment.token_columns instantiation.rule_029 instantiation.port_map_lines
  = [10; 15; 12]
  /\ alignment.required_columns instantiation.rule_029 instantiation.port_map_lines
     = alignment.token_columns instantiation.rule_029 instantiation.port_map_lines
  /\ alignment.fix_region instantiation.rule_029 instantiation.port_map_lines
     = [ [Token whitespace "  "; Token (production "port_map_aspect") "a => b,";
          Token whitespace "      "; Token comment "-- one"];
         [Token whitespace "    "; Token comment "-- a comment on its own"];
         [Token whitespace "  "; Token (production "port_map_aspect") "PORT_2 => b,";
          Token whitespace " "; Token comment "-- two"];
         [Token whitespace "  "; Token (production "port_map_aspect") "PORT_3 =>";
          Token whitespace "    "; Token comment "-- three"] ]
  /\ alignment.token_columns instantiation.rule_029
       (alignment.fix_region instantiation.rule_029 instantiation.port_map_lines)
     = [15; 15; 15].
Proof. repeat split; vm_compute; reflexivity. Qed.

(** ** One repair pass and the analysis after it *)

(** C1 (as amended).  For the rules whose repair is part of the sources at
    hand, one repair pass of a fixable rule succeeds and the analysis of
    the repaired file records no violation: for the blank-line rule in
    its require-blank-line style without hierarchy limits, on every
    stream, provided the rule does not look for the blank-line class
    itself; for [architecture_010], on every file whose lines flagged as
    the end of an architecture begin with [end], provided the rule holds
    no violation for a line beyond the file; for [instantiation_029], on
    every region. *)
Theorem fix_then_analyze_is_clean {HH : Hierarchy} :
  (forall X self oFile,
     fixable self = true ->
     style self = "require_blank_line" -> lHierarchyLimits self = None ->
     blank_line ∉ lTokens self ->
     exists self' oFile',
       fix_ X self oFile = Some (self', oFile')
       /\ violations (analyze X self' oFile') = [])
  /\ (forall self lines,
        architecture.fixable self = true ->
        Forall (fun k => k < length lines) (architecture.violations self) ->
        Forall (fun oLine => architecture.isEndArchitecture oLine = true ->
                             architecture.begins_with_end oLine = true) lines ->
        exists self' lines',
          architecture.fix_ self lines = Some (self', lines')
          /\ architecture.violations (architecture.analyze self' lines') = [])
  /\ (forall region,
        alignment.analyze instantiation.rule_029
          (alignment.fix_region instantiation.rule_029 region) = []).
Proof.
  split; [|split].
  - intros X self oFile Hf Hs Hl Hb.
    destruct (fix_then_analyze X self oFile Hf Hs Hl Hb) as (oFile' & Hfix & Hnone).
    by exists (set_violations self []), oFile'.
  - apply architecture_010_fix_then_analyze.
  - intros region. apply alignment_fix_then_analyze.
    simpl. by intros [=]%list_elem_of_singleton.
Qed.

Lemma fix_then_analyze_is_clean_witness :
  (exists self' oFile',
     fix_ (HH := item_hierarchy) no_extract begin_rule
       (process_lines ++ new_carriage_return :: statement_lines)
     = Some (self', oFile')
     /\ violations (analyze (HH := item_hierarchy) no_extract self' oFile') = [])
  /\ (exists self' lines',
        architecture.fix_ architecture.rule_010
          [ {| architecture.line := [];
               architecture.isEndArchitecture := false |};
            {| architecture.line := architecture.codes "architecture rtl of fifo is";
               architecture.isEndArchitecture := false |};
            {| architecture.line := architecture.codes "  END rtl;";
               architecture.isEndArchitecture := true |} ]
        = Some (self', lines')
        /\ architecture.violations (architecture.analyze self' lines') = [])
  /\ alignment.analyze instantiation.rule_029
       (alignment.fix_region instantiation.rule_029 instantiation.port_map_lines)
     = [].
Proof.
  split; [|split].
  - apply (proj1 (fix_then_analyze_is_clean (HH := item_hierarchy)) no_extract begin_rule
             (process_lines ++ new_carriage_return :: statement_lines)).
    + reflexivity.
    + reflexivity.
    + reflexivity.
    + refine (@bool_decide_unpack _ _ _). vm_compute. exact I.
  - apply (proj1 (proj2 (fix_then_analyze_is_clean (HH := item_hierarchy)))
             architecture.rule_010).
    + reflexivity.
    + constructor.
    + repeat constructor; simpl; intros H; first [reflexivity | discriminate H].
  - apply (proj2 (proj2 (fix_then_analyze_is_clean (HH := item_hierarchy)))
             instantiation.port_map_lines).
Defined.

(** What the repair of [architecture_010] makes of [END rtl;]. *)
Lemma architecture_010_example :
  architecture.fix_ architecture.rule_010
    [ {| architecture.line := architecture.codes "  END rtl;";
         architecture.isEndArchitecture := true |} ]
  = Some (architecture.rule_010,
          [ {| architecture.line := architecture.codes "  END architecture rtl;";
               architecture.isEndArchitecture := true |} ]).
Proof. reflexivity. Qed.

(** The two patterns on text that is not ASCII: a no-break space is
    white space to them, and a dotless i an [i]. *)
Lemma architecture_010_unicode_example :
  architecture.re_sub_end (160%N :: architecture.codes "end rtl;")
  = 160%N :: architecture.codes "end architecture rtl;"
  /\ architecture.re_match_end_architecture
       (architecture.codes "end" ++ 160%N :: architecture.codes "arch"
          ++ 305%N :: architecture.codes "tecture rtl;")
     = true.
Proof. split; reflexivity. Qed.

(** An allow list that names a base class exempts the tokens of the
    classes derived from it. *)
Lemma is_allowed_token_base_class :
  _is_allowed_token (HH := item_hierarchy) [item] [Token comment "-- x"] = true.
Proof. reflexivity. Qed.

(** C1, the claim as worded, fails for fixable rules in three ways.  A
    blank-line rule that looks for the blank-line class itself asks for
    a blank line below the one its repair has put in, so the analysis of
    the repaired stream records a violation.  [architecture_010] cannot
    mend a flagged line on which [end] is not the first word, here one
    that closes a statement first; the analysis of the repaired file
    records the line again.  And with a violation held from before for
    a line beyond the file, its repair fails and there is no repaired
    file to analyse. *)
Lemma fix_then_analyze_not_clean :
  (exists self' oFile',
     fix_ (HH := item_hierarchy) no_extract
       (init "process" "011" [production "begin_keyword"; blank_line] [comment])
       (process_lines ++ new_carriage_return :: statement_lines)
     = Some (self', oFile')
     /\ violations (analyze (HH := item_hierarchy) no_extract self' oFile') <> [])
  /\ (exists self' lines',
        architecture.fix_ architecture.rule_010
          [ {| architecture.line := architecture.codes "  q <= d; end rtl;";
               architecture.isEndArchitecture := true |} ]
        = Some (self', lines')
        /\ architecture.violations (architecture.analyze self' lines') = [0])
  /\ architecture.fix_
       (architecture.set_violations architecture.rule_010 [3])
       [ {| architecture.line := architecture.codes "end architecture rtl;";
            architecture.isEndArchitecture := true |} ]
     = None.
Proof.
  split; [|split].
  - eexists _, _. split; [reflexivity|]. vm_compute. discriminate.
  - eexists _, _. split; reflexivity.
  - reflexivity.
Qed.

(* ===================================================================== *)
(** * Further properties of the embedded code *)
(* ===================================================================== *)

(** ** The blank-line rule *)

(** X3.  [_is_allowed_token] answers [True] exactly when some token of the
    range is an instance of some class of the allow list; in particular
    never for an empty range or an empty list. *)
Theorem is_allowed_token_iff {HH : Hierarchy} lAllow lToks :
  _is_allowed_token lAllow lToks = true
  <-> exists oToken oAllowToken,
        oToken ∈ lToks /\ oAllowToken ∈ lAllow
        /\ isinstance oToken oAllowToken = true.
Proof.
  rewrite is_allowed_token_spec, Exists_exists. split.
  - intros (t & Hin & (a & Ha & Hi)%Exists_exists). by exists t, a.
  - intros (t & a & Hin & Ha & Hi). exists t. split; [done|].
    apply Exists_exists. by exists a.
Qed.

Lemma analyze_require_blank_line_app {HH : Hierarchy} l1 : forall self l2 lAllow,
  _analyze_require_blank_line self (l1 ++ l2) lAllow
  = _analyze_require_blank_line (_analyze_require_blank_line self l1 lAllow) l2 lAllow.
Proof.
  induction l1 as [|oToi rest IH]; intros self l2 lAllow; simpl; [done|].
  destruct (_is_allowed_token lAllow (get_tokens oToi)); [apply IH|].
  destruct (Nat.eqb (length (get_tokens oToi)) 1 && _); apply IH.
Qed.

Lemma analyze_no_blank_line_app l1 : forall self l2 lAllow,
  _analyze_no_blank_line self (l1 ++ l2) lAllow
  = _analyze_no_blank_line (_analyze_no_blank_line self l1 lAllow) l2 lAllow.
Proof.
  induction l1 as [|oToi rest IH]; intros self l2 lAllow; simpl; [done|].
  apply IH.
Qed.

(** X4.  Analysing a list of ranges in two parts, the second part with
    the rule as the first part left it, is analysing the whole list. *)
Theorem analyze_ranges_app {HH : Hierarchy} self l1 l2 :
  _analyze self (l1 ++ l2) = _analyze (_analyze self l1) l2.
Proof.
  unfold _analyze.
  destruct (String.eqb (style self) "require_blank_line") eqn:Hr.
  - rewrite analyze_require_blank_line_app.
    rewrite (analyze_require_blank_line_frame l1 self). cbn [style lAllowTokens set_violations].
    by rewrite Hr.
  - destruct (String.eqb (style self) "no_blank_line") eqn:Hn.
    + rewrite analyze_no_blank_line_app.
      rewrite (analyze_no_blank_line_frame l1 self). cbn [style lAllowTokens set_violations].
      by rewrite Hr, Hn.
    + by rewrite Hr, Hn.
Qed.

Lemma analyze_added {HH : Hierarchy} self lToi :
  exists added,
    _analyze self lToi = set_violations self (violations self ++ added)
    /\ length added <= length lToi
    /\ Forall (fun v => v_tokens v ∈ lToi
                        /\ v_solution v = solution self
                        /\ is_Some (v_action v)) added.
Proof.
  unfold _analyze.
  destruct (String.eqb (style self) "require_blank_line").
  - eexists. split.
    + rewrite analyze_require_blank_line_frame.
      by rewrite analyze_require_blank_line_violations.
    + split.
      * rewrite length_map. apply length_filter.
      * apply Forall_forall. intros v (oToi & -> & Hin)%list_elem_of_fmap.
        apply list_elem_of_filter in Hin as [_ Hin]. simpl. by split; [|split; [|eexists]].
  - destruct (String.eqb (style self) "no_blank_line").
    + eexists. split.
      * rewrite analyze_no_blank_line_frame.
        by rewrite analyze_no_blank_line_violations.
      * split; [by rewrite length_map|].
        apply Forall_forall. intros v (oToi & -> & Hin)%list_elem_of_fmap.
        simpl. by split; [|split; [|eexists]].
    + exists []. split.
      * rewrite app_nil_r. by destruct self.
      * split; [simpl; lia|constructor].
Qed.

(** X5.  The analysis touches nothing of the rule but its violations, and
    those it only appends to: what was recorded stays in front, in order;
    at most one violation is added per range, each pointing at one of the
    ranges given, with the solution of the rule and an action. *)
Theorem analyze_appends {HH : Hierarchy} self lToi :
  exists added,
    _analyze self lToi = set_violations self (violations self ++ added)
    /\ length added <= length lToi
    /\ Forall (fun v => v_tokens v ∈ lToi
                        /\ v_solution v = solution self
                        /\ is_Some (v_action v)) added.
Proof. apply analyze_added. Qed.

Lemma filter_sublist_impl {A} (P Q : A -> Prop)
    `{!forall x, Decision (P x)} `{!forall x, Decision (Q x)} (l : list A) :
  (forall x, P x -> Q x) -> sublist (filter P l) (filter Q l).
Proof.
  intros Himpl. induction l as [|x l IH]; [done|].
  rewrite !filter_cons.
  destruct (decide (P x)) as [HP|HP].
  - rewrite decide_True by auto. by apply sublist_skip.
  - destruct (decide (Q x)); [by apply sublist_cons|done].
Qed.

Lemma exempt_mono {HH : Hierarchy} lAllow lAllow' lToks :
  lAllow ⊆ lAllow' -> exempt lAllow lToks -> exempt lAllow' lToks.
Proof.
  intros Hsub [H|H]; [by left|]. right.
  eapply Exists_impl; [exact H|]. intros t Ht.
  apply Exists_exists in Ht as (cls & Hin & Hi). apply Exists_exists.
  exists cls. split; [by apply Hsub|done].
Qed.

(** X6.  Allowing more classes never adds a violation: in the
    require-blank-line style the violations recorded with a larger allow
    list are a sub-list, in order, of those recorded with a smaller one. *)
Theorem allow_list_monotone {HH : Hierarchy} self lToi lAllow lAllow' :
  lAllow ⊆ lAllow' ->
  sublist (violations (_analyze_require_blank_line self lToi lAllow'))
          (violations (_analyze_require_blank_line self lToi lAllow)).
Proof.
  intros Hsub. rewrite !analyze_require_blank_line_violations.
  apply sublist_app; [done|]. apply fmap_sublist.
  apply filter_sublist_impl. intros oToi Hn He. apply Hn.
  by apply (exempt_mono lAllow lAllow').
Qed.

Lemma allow_list_monotone_witness :
  sublist
    (violations
       (_analyze_require_blank_line (HH := item_hierarchy) begin_rule
          [new_Tokens 3 2 [Token comment "-- note"];
           new_Tokens 9 5 [Token (production "simple_name") "a"]]
          [comment; whitespace]))
    (violations
       (_analyze_require_blank_line (HH := item_hierarchy) begin_rule
          [new_Tokens 3 2 [Token comment "-- note"];
           new_Tokens 9 5 [Token (production "simple_name") "a"]]
          [whitespace])).
Proof.
  apply (allow_list_monotone begin_rule
           [new_Tokens 3 2 [Token comment "-- note"];
            new_Tokens 9 5 [Token (production "simple_name") "a"]]
           [whitespace] [comment; whitespace]).
  refine (@bool_decide_unpack _ _ _). vm_compute. exact I.
Defined.

Lemma fix_violation_spans v v' :
  _fix_violation v = Some v' ->
  v_line v' = v_line v
  /\ get_start_index (v_tokens v') = get_start_index (v_tokens v)
  /\ get_end_index (v_tokens v') = get_end_index (v_tokens v)
  /\ get_line_number (v_tokens v') = get_line_number (v_tokens v)
  /\ v_solution v' = v_solution v /\ v_action v' = v_action v.
Proof.
  unfold _fix_violation. destruct (v_action v) as [dAction|] eqn:Ha; simpl; [|done].
  destruct (String.eqb (action dAction) "Insert"); [by intros [= <-]; simpl|].
  destruct (String.eqb (action dAction) "Remove"); by intros [= <-]; simpl.
Qed.

Lemma mapM_fix_violation l :
  Forall (fun v => is_Some (v_action v)) l ->
  exists lFixed,
    mapM _fix_violation l = Some lFixed
    /\ Forall2 (fun v v' => _fix_violation v = Some v') l lFixed.
Proof.
  induction 1 as [|v l [dAction Ha] Hl (lFixed & IH & IH2)].
  - exists []. by split; [|constructor].
  - assert (exists v', _fix_violation v = Some v') as [v' Hv'].
    { unfold _fix_violation. rewrite Ha. simpl.
      destruct (String.eqb (action dAction) "Insert"); [by eexists|].
      destruct (String.eqb (action dAction) "Remove"); by eexists. }
    exists (v' :: lFixed). split.
    + simpl. simpl in IH. by rewrite Hv', IH.
    + by constructor.
Qed.

(** X7.  Whatever the analysis records can be repaired: if the violations
    the rule held before all carry an action, the repair of every
    violation held after the analysis succeeds, and it changes neither
    the span of the range in the stream, nor its line number, nor the
    line, solution or action of the violation. *)
Theorem analyzed_violations_are_repairable {HH : Hierarchy} self lToi :
  Forall (fun v => is_Some (v_action v)) (violations self) ->
  exists lFixed,
    mapM _fix_violation (violations (_analyze self lToi)) = Some lFixed
    /\ Forall2 (fun v v' =>
                  v_line v' = v_line v
                  /\ get_start_index (v_tokens v') = get_start_index (v_tokens v)
                  /\ get_end_index (v_tokens v') = get_end_index (v_tokens v)
                  /\ get_line_number (v_tokens v') = get_line_number (v_tokens v)
                  /\ v_solution v' = v_solution v /\ v_action v' = v_action v)
               (violations (_analyze self lToi)) lFixed.
Proof.
  intros Hold. destruct (analyze_added self lToi) as (added & -> & _ & Hadded).
  cbn [violations set_violations].
  destruct (mapM_fix_violation (violations self ++ added)) as (lFixed & Hm & H2).
  { apply Forall_app. split; [done|].
    eapply Forall_impl; [exact Hadded|]. by intros v (_ & _ & ?). }
  exists lFixed. split; [done|].
  eapply Forall2_impl; [exact H2|]. intros v v' Hv. by apply fix_violation_spans.
Qed.

Lemma analyzed_violations_are_repairable_witness :
  exists lFixed,
    mapM _fix_violation
      (violations (_analyze (HH := item_hierarchy) begin_rule
                     [new_Tokens 9 5 [Token (production "simple_name") "a"]]))
    = Some lFixed
    /\ Forall2 (fun v v' =>
                  v_line v' = v_line v
                  /\ get_start_index (v_tokens v') = get_start_index (v_tokens v)
                  /\ get_end_index (v_tokens v') = get_end_index (v_tokens v)
                  /\ get_line_number (v_tokens v') = get_line_number (v_tokens v)
                  /\ v_solution v' = v_solution v /\ v_action v' = v_action v)
               (violations (_analyze (HH := item_hierarchy) begin_rule
                              [new_Tokens 9 5 [Token (production "simple_name") "a"]]))
               lFixed.
Proof.
  apply (analyzed_violations_are_repairable begin_rule
           [new_Tokens 9 5 [Token (production "simple_name") "a"]]).
  constructor.
Defined.

(** ** [architecture_010] *)

Lemma analyze_from_added lines : forall self i,
  exists added,
    architecture.violations (architecture.analyze_from self i lines)
    = architecture.violations self ++ added
    /\ StronglySorted lt added
    /\ forall k, k ∈ added
         <-> exists j oLine,
               k = i + j /\ lines !! j = Some oLine
               /\ architecture.clean oLine = false.
Proof.
  induction lines as [|oLine rest IH]; intros self i.
  - exists []. split; [by rewrite app_nil_r|]. split; [constructor|].
    intros k. split; [by intros ?%elem_of_nil|]. by intros (j & o & _ & ? & _).
  - assert (Hskip : architecture.clean oLine = true ->
              forall added : list nat,
              (forall k, k ∈ added
                 <-> exists j o, k = S i + j /\ rest !! j = Some o
                                 /\ architecture.clean o = false) ->
              forall k, k ∈ added
                 <-> exists j o, k = i + j /\ (oLine :: rest) !! j = Some o
                                 /\ architecture.clean o = false).
    { intros Hc added Hadded k. rewrite Hadded. split.
      - intros (j & o & -> & Hj & Ho). exists (S j), o. split; [lia|]. by split.
      - intros ([|j] & o & -> & Hj & Ho); simpl in Hj.
        + injection Hj as ->. congruence.
        + exists j, o. split; [lia|]. by split. }
    simpl. unfold architecture.clean in Hskip.
    destruct (architecture.isEndArchitecture oLine) eqn:He; simpl in Hskip.
    + destruct (architecture.re_match_end_architecture (architecture.line oLine))
        eqn:Hm; simpl.
      * destruct (IH self (S i)) as (added & Hv & Hs & Hadded).
        exists added. split; [done|]. split; [done|]. by apply Hskip.
      * destruct (IH (architecture.add_violation self i) (S i))
          as (added & Hv & Hs & Hadded).
        exists (i :: added). split.
        { rewrite Hv. simpl. by rewrite <- app_assoc. }
        split.
        { constructor; [done|]. apply Forall_forall. intros k Hk.
          apply Hadded in Hk as (j & _ & -> & _). lia. }
        intros k. rewrite elem_of_cons, Hadded. split.
        { intros [->|(j & o & -> & Hj & Ho)].
          - exists 0, oLine. split; [lia|]. split; [done|].
            unfold architecture.clean. by rewrite He, Hm.
          - exists (S j), o. split; [lia|]. by split. }
        { intros ([|j] & o & -> & Hj & Ho); simpl in Hj.
          - left. lia.
          - right. exists j, o. split; [lia|]. by split. }
    + destruct (IH self (S i)) as (added & Hv & Hs & Hadded).
      exists added. split; [done|]. split; [done|]. by apply Hskip.
Qed.

(** X8.  Started without violations, [analyze] records a line number
    exactly when that line of the file is flagged as the end of an
    architecture and its text does not match the pattern; the numbers are
    recorded in strictly ascending order, so none twice. *)
Theorem analyze_010_records self lines :
  architecture.violations self = [] ->
  StronglySorted lt (architecture.violations (architecture.analyze self lines))
  /\ forall k,
       k ∈ architecture.violations (architecture.analyze self lines)
       <-> exists oLine,
             lines !! k = Some oLine
             /\ architecture.isEndArchitecture oLine = true
             /\ architecture.re_match_end_architecture (architecture.line oLine)
                = false.
Proof.
  intros Hv. unfold architecture.analyze.
  destruct (analyze_from_added lines self 0) as (added & -> & Hs & Hadded).
  rewrite Hv. simpl. split; [done|]. intros k. rewrite Hadded. split.
  - intros (j & o & -> & Hj & Ho). exists o. split; [done|].
    unfold architecture.clean in Ho.
    by destruct (architecture.isEndArchitecture o),
         (architecture.re_match_end_architecture (architecture.line o)).
  - intros (o & Hk & He & Hm). exists k, o. split; [done|]. split; [done|].
    unfold architecture.clean. by rewrite He, Hm.
Qed.

Lemma analyze_010_records_witness :
  StronglySorted lt
    (architecture.violations
       (architecture.analyze architecture.rule_010
          [ {| architecture.line := architecture.codes "begin"; architecture.isEndArchitecture := false |};
            {| architecture.line := architecture.codes "  END rtl;"; architecture.isEndArchitecture := true |} ]))
  /\ forall k,
       k ∈ architecture.violations
             (architecture.analyze architecture.rule_010
                [ {| architecture.line := architecture.codes "begin"; architecture.isEndArchitecture := false |};
                  {| architecture.line := architecture.codes "  END rtl;"; architecture.isEndArchitecture := true |} ])
       <-> exists oLine,
             [ {| architecture.line := architecture.codes "begin"; architecture.isEndArchitecture := false |};
               {| architecture.line := architecture.codes "  END rtl;"; architecture.isEndArchitecture := true |} ]
               !! k = Some oLine
             /\ architecture.isEndArchitecture oLine = true
             /\ architecture.re_match_end_architecture (architecture.line oLine)
                = false.
Proof.
  apply (analyze_010_records architecture.rule_010
           [ {| architecture.line := architecture.codes "begin"; architecture.isEndArchitecture := false |};
             {| architecture.line := architecture.codes "  END rtl;"; architecture.isEndArchitecture := true |} ]).
  reflexivity.
Defined.

Lemma analyze_from_accumulates lines : forall self i,
  architecture.violations (architecture.analyze_from self i lines)
  = architecture.violations self
    ++ architecture.violations
         (architecture.analyze_from (architecture.set_violations self []) i lines).
Proof.
  induction lines as [|oLine rest IH]; intros self i; simpl.
  - by rewrite app_nil_r.
  - destruct (architecture.isEndArchitecture oLine); [|apply IH].
    destruct (negb _); [|apply IH].
    rewrite IH.
    rewrite (IH (architecture.add_violation (architecture.set_violations self []) i)).
    simpl. by rewrite <- app_assoc.
Qed.

(** X9.  [analyze] does not reset the rule: what it finds is appended to
    the violations already held, so analysing the same file a second time
    without clearing them records every finding twice. *)
Theorem analyze_010_accumulates self lines :
  architecture.violations (architecture.analyze self lines)
  = architecture.violations self
    ++ architecture.violations
         (architecture.analyze (architecture.set_violations self []) lines)
  /\ architecture.violations
       (architecture.analyze (architecture.analyze self lines) lines)
     = architecture.violations self
       ++ architecture.violations
            (architecture.analyze (architecture.set_violations self []) lines)
       ++ architecture.violations
            (architecture.analyze (architecture.set_violations self []) lines).
Proof.
  unfold architecture.analyze. split; [apply analyze_from_accumulates|].
  rewrite analyze_from_accumulates.
  rewrite (analyze_from_accumulates lines self 0) at 1.
  rewrite <- app_assoc. do 2 f_equal.
  rewrite (analyze_from_frame lines self 0). reflexivity.
Qed.

Lemma fix_violations_length vs : forall lines lines',
  architecture._fix_violations vs lines = Some lines' ->
  length lines' = length lines.
Proof.
  induction vs as [|k r IH]; intros lines lines'; simpl.
  - by intros [= <-].
  - destruct (lines !! k); [|done]. intros H%IH. by rewrite length_insert in H.
Qed.

Lemma fix_violations_None vs lines :
  architecture._fix_violations vs lines = None
  <-> exists k, k ∈ vs /\ length lines <= k.
Proof.
  revert lines. induction vs as [|k r IH]; intros lines; simpl.
  - split; [done|]. by intros (k & ?%elem_of_nil & _).
  - destruct (lines !! k) as [oLine|] eqn:Hk.
    + rewrite IH, length_insert. apply lookup_lt_Some in Hk. split.
      * intros (j & Hj & Hlen). exists j. split; [by right|done].
      * intros (j & [->|Hj]%elem_of_cons & Hlen); [lia|]. by exists j.
    + split; [|done]. intros _. exists k. split; [by left|].
      by apply lookup_ge_None.
Qed.

(** X10.  [_fix_violations] fails, with the [IndexError] of
    [oFile.lines[iLineNumber]], exactly when one of the line numbers it is
    given lies beyond the last line of the file. *)
Theorem fix_violations_010_index_error vs lines :
  architecture._fix_violations vs lines = None
  <-> exists k, k ∈ vs /\ length lines <= k.
Proof. apply fix_violations_None. Qed.

Lemma fix_violations_frame vs lines lines' :
  architecture._fix_violations vs lines = Some lines' ->
  length lines' = length lines
  /\ map architecture.isEndArchitecture lines'
     = map architecture.isEndArchitecture lines
  /\ forall j, j ∉ vs -> lines' !! j = lines !! j.
Proof.
  revert lines. induction vs as [|k r IH]; intros lines; simpl.
  - by intros [= <-].
  - destruct (lines !! k) as [oLine|] eqn:Hk; [|done].
    intros (Hlen & Hflags & Hrest)%IH. rewrite length_insert in Hlen.
    split; [done|]. split.
    + rewrite Hflags, list_fmap_insert. simpl.
      apply list_insert_id. by rewrite list_lookup_fmap, Hk.
    + intros j Hj. apply not_elem_of_cons in Hj as [Hne Hj].
      rewrite Hrest by done. by apply list_lookup_insert_ne.
Qed.

(** X11.  [_fix_violations] rewrites text only: the file keeps its number
    of lines, every line keeps its end-of-architecture flag, and a line
    whose number is not among those given is left as it was. *)
Theorem fix_violations_010_frame vs lines lines' :
  architecture._fix_violations vs lines = Some lines' ->
  length lines' = length lines
  /\ map architecture.isEndArchitecture lines'
     = map architecture.isEndArchitecture lines
  /\ forall j, j ∉ vs -> lines' !! j = lines !! j.
Proof. apply fix_violations_frame. Qed.

Lemma fix_violations_010_frame_witness :
  length [ {| architecture.line := architecture.codes "begin"; architecture.isEndArchitecture := false |};
           {| architecture.line := architecture.codes "end architecture rtl;";
              architecture.isEndArchitecture := true |} ]
  = length [ {| architecture.line := architecture.codes "begin"; architecture.isEndArchitecture := false |};
             {| architecture.line := architecture.codes "end rtl;"; architecture.isEndArchitecture := true |} ]
  /\ map architecture.isEndArchitecture
       [ {| architecture.line := architecture.codes "begin"; architecture.isEndArchitecture := false |};
         {| architecture.line := architecture.codes "end architecture rtl;";
            architecture.isEndArchitecture := true |} ]
     = map architecture.isEndArchitecture
         [ {| architecture.line := architecture.codes "begin"; architecture.isEndArchitecture := false |};
           {| architecture.line := architecture.codes "end rtl;"; architecture.isEndArchitecture := true |} ]
  /\ forall j, j ∉ [1] ->
       [ {| architecture.line := architecture.codes "begin"; architecture.isEndArchitecture := false |};
         {| architecture.line := architecture.codes "end architecture rtl;";
            architecture.isEndArchitecture := true |} ] !! j
       = [ {| architecture.line := architecture.codes "begin"; architecture.isEndArchitecture := false |};
           {| architecture.line := architecture.codes "end rtl;"; architecture.isEndArchitecture := true |} ]
           !! j.
Proof.
  apply (fix_violations_010_frame [1]
           [ {| architecture.line := architecture.codes "begin"; architecture.isEndArchitecture := false |};
             {| architecture.line := architecture.codes "end rtl;"; architecture.isEndArchitecture := true |} ]).
  reflexivity.
Defined.

Lemma take_skip_spaces s :
  architecture.take_spaces s ++ architecture.skip_spaces s = s.
Proof.
  induction s as [|c r IH]; simpl; [done|].
  destruct (architecture.is_space c); simpl; [by rewrite IH|done].
Qed.

Lemma match_ci_split lit : forall s m r,
  architecture.match_ci lit s = Some (m, r) ->
  s = m ++ r /\ length m = length lit
  /\ forall t, architecture.match_ci lit (m ++ t) = Some (m, t).
Proof.
  induction lit as [|a lit IH]; intros s m r; simpl.
  - by intros [= <- <-].
  - destruct s as [|c s]; [done|].
    destruct (N.eqb (architecture.lower c) a) eqn:Hc; [|done].
    destruct (architecture.match_ci lit s) as [[m' r']|] eqn:Hm; simpl; [|done].
    intros [= <- <-]. destruct (IH _ _ _ Hm) as (-> & Hlen & Ht).
    simpl. split; [done|]. split; [by rewrite Hlen|].
    intros t. by rewrite Hc, Ht.
Qed.

(** X12.  The substitution of the repair only inserts: a line that
    begins, after its leading whitespace, with the three letters of [end]
    in any case is cut behind them and the text [ architecture] put in
    between, both parts kept as they were; any other line is returned
    unchanged. *)
Theorem re_sub_end_only_inserts s :
  (exists sEnd sRest,
      s = sEnd ++ sRest
      /\ architecture.re_sub_end s
         = sEnd ++ architecture.codes " architecture" ++ sRest
      /\ architecture.match_ci (architecture.codes "end")
           (architecture.skip_spaces sEnd)
         = Some (architecture.skip_spaces sEnd, []))
  \/ (architecture.match_ci (architecture.codes "end")
        (architecture.skip_spaces s) = None
      /\ architecture.re_sub_end s = s).
Proof.
  unfold architecture.re_sub_end.
  destruct (architecture.match_ci (architecture.codes "end")
              (architecture.skip_spaces s))
    as [[m r]|] eqn:Hm; [left|by right].
  destruct (match_ci_split _ _ _ _ Hm) as (Hs & _ & Ht).
  exists (architecture.take_spaces s ++ m), r.
  split; [by rewrite <- app_assoc, <- Hs, take_skip_spaces|].
  split; [by rewrite <- app_assoc|].
  rewrite skip_take_spaces.
  rewrite <- (app_nil_r m) at 1 2.
  rewrite (match_end_not_space _ _ _ Hm). rewrite Ht. by rewrite app_nil_r.
Qed.

Lemma update_line_same oLine :
  architecture.update_line oLine (architecture.line oLine) = oLine.
Proof. by destruct oLine. Qed.

Lemma fix_violations_keeps_other_lines vs : forall lines lines' j oLine,
  lines !! j = Some oLine ->
  architecture.begins_with_end oLine = false ->
  architecture._fix_violations vs lines = Some lines' ->
  lines' !! j = Some oLine.
Proof.
  induction vs as [|k r IH]; intros lines lines' j oLine Hj Hb; simpl.
  - by intros [= <-].
  - destruct (lines !! k) as [lk|] eqn:Hk; [|done].
    apply IH; [|done].
    destruct (decide (j = k)) as [->|Hne]; [|by rewrite list_lookup_insert_ne].
    assert (lk = oLine) as -> by congruence.
    rewrite list_lookup_insert_eq by (by eapply lookup_lt_Some). f_equal.
    unfold architecture.begins_with_end in Hb. apply bool_decide_eq_false in Hb.
    unfold architecture.re_sub_end.
    destruct (architecture.match_ci (architecture.codes "end") _) as [[m r0]|].
    + exfalso. apply Hb. by eexists.
    + apply update_line_same.
Qed.

(** X13.  The repair cannot mend a line that is flagged as the end of an
    architecture but does not begin with [end]: whatever line numbers
    [_fix_violations] is given, it returns that line as it was, and the
    analysis of the repaired file records it again. *)
Theorem fix_violations_010_cannot_mend vs lines lines' j oLine self :
  lines !! j = Some oLine ->
  architecture.isEndArchitecture oLine = true ->
  architecture.begins_with_end oLine = false ->
  architecture._fix_violations vs lines = Some lines' ->
  lines' !! j = Some oLine
  /\ j ∈ architecture.violations (architecture.analyze self lines').
Proof.
  intros Hj He Hb Hfix.
  assert (Hj' := fix_violations_keeps_other_lines _ _ _ _ _ Hj Hb Hfix).
  split; [done|].
  apply (analyze_from_complete lines' self 0 j oLine Hj').
  unfold architecture.clean, architecture.re_match_end_architecture. rewrite He.
  unfold architecture.begins_with_end in Hb. apply bool_decide_eq_false in Hb.
  destruct (architecture.match_ci (architecture.codes "end") _) as [[m r0]|];
    [|done].
  exfalso. apply Hb. by eexists.
Qed.

Lemma fix_violations_010_cannot_mend_witness :
  [ {| architecture.line := architecture.codes "architecture rtl;"; architecture.isEndArchitecture := true |} ]
    !! 0
  = Some {| architecture.line := architecture.codes "architecture rtl;";
            architecture.isEndArchitecture := true |}
  /\ 0 ∈ architecture.violations
           (architecture.analyze architecture.rule_010
              [ {| architecture.line := architecture.codes "architecture rtl;";
                   architecture.isEndArchitecture := true |} ]).
Proof.
  apply (fix_violations_010_cannot_mend [0]
           [ {| architecture.line := architecture.codes "architecture rtl;";
                architecture.isEndArchitecture := true |} ]
           [ {| architecture.line := architecture.codes "architecture rtl;";
                architecture.isEndArchitecture := true |} ]
           0
           {| architecture.line := architecture.codes "architecture rtl;";
              architecture.isEndArchitecture := true |}
           architecture.rule_010); reflexivity.
Defined.

(** ** The blank-line rule: what a repair pass does to the stream *)

Lemma with_blank_lines_sublist {HH : Hierarchy} lKinds lAllow rest : forall L0,
  sublist (unlines L0 rest) (with_blank_lines lKinds lAllow L0 rest).
Proof.
  induction rest as [|[c L] r IH]; intros L0; simpl; [done|].
  apply sublist_app; [done|]. apply sublist_skip.
  apply sublist_inserts_l, IH.
Qed.

Lemma with_blank_lines_length {HH : Hierarchy} lKinds lAllow rest : forall L0 s n,
  length (with_blank_lines lKinds lAllow L0 rest)
  = length (unlines L0 rest)
    + 2 * length (filter (fun oToi => ~ exempt lAllow (get_tokens oToi))
                    (vhdlFile.lines_below lKinds s n (L0 :: map snd rest))).
Proof.
  induction rest as [|[c L] r IH]; intros L0 s n.
  - simpl. lia.
  - cbn [map snd]. rewrite lines_below_cons, filter_app, length_app.
    cbn [unlines with_blank_lines].
    rewrite !length_app. cbn [length]. rewrite !length_app.
    rewrite (IH L (s + length L0 + 1) (n + 1)%Z).
    destruct (vhdlFile.ends_with lKinds L0); cbn [andb].
    + rewrite filter_cons. cbn [get_tokens new_Tokens].
      destruct (decide (~ exempt lAllow L)) as [Hn|Hn].
      * rewrite bool_decide_eq_true_2 by done. simpl. lia.
      * rewrite bool_decide_eq_false_2 by done. simpl. lia.
    + simpl. lia.
Qed.

(** X14.  In the require-blank-line style without hierarchy limits a
    repair pass only inserts: it succeeds on every stream, the tokens of
    the stream are all still there afterwards, in their order, and the
    repaired stream is longer by two tokens, a blank line and a line
    terminator, for each violation the analysis of the stream records. *)
Theorem fix_require_blank_line_only_inserts {HH : Hierarchy} X self oFile :
  fixable self = true ->
  style self = "require_blank_line" -> lHierarchyLimits self = None ->
  exists oFile',
    fix_ X self oFile = Some (set_violations self [], oFile')
    /\ sublist oFile oFile'
    /\ length oFile'
       = length oFile + 2 * length (violations (analyze X self oFile)).
Proof.
  intros Hf Hs Hl.
  destruct (unlines_decompose oFile) as (L0 & rest & -> & Hwf).
  rewrite (fix_require_blank_line X self L0 rest Hf Hs Hl Hwf).
  eexists. split; [done|]. split; [apply with_blank_lines_sublist|].
  rewrite (analyze_require_blank_line X self _ Hs Hl), length_map.
  unfold vhdlFile.get_line_below_line_ending_with_token.
  rewrite lines_of_unlines by done.
  apply with_blank_lines_length.
Qed.

Lemma fix_require_blank_line_only_inserts_witness :
  exists oFile',
    fix_ (HH := item_hierarchy) no_extract begin_rule (process_lines ++ new_carriage_return :: statement_lines)
    = Some (set_violations begin_rule [], oFile')
    /\ sublist (process_lines ++ new_carriage_return :: statement_lines) oFile'
    /\ length oFile'
       = length (process_lines ++ new_carriage_return :: statement_lines)
         + 2 * length (violations
                         (analyze (HH := item_hierarchy) no_extract begin_rule
                            (process_lines ++ new_carriage_return :: statement_lines))).
Proof.
  apply (fix_require_blank_line_only_inserts no_extract begin_rule
           (process_lines ++ new_carriage_return :: statement_lines));
    reflexivity.
Defined.

Lemma take_drop_sublist {A} (l : list A) s e :
  s <= e -> sublist (take s l ++ drop e l) l.
Proof.
  intros Hse. rewrite <- (take_drop s l) at 3.
  apply sublist_app; [done|].
  replace e with (s + (e - s)) by lia. rewrite <- drop_drop.
  apply sublist_drop.
Qed.

Lemma fix_remove_violations sSolution l :
  mapM _fix_violation (map (remove_violation sSolution) l)
  = Some (map (fun oToi => violation.set_tokens (remove_violation sSolution oToi) []) l).
Proof.
  induction l as [|oToi l IH]; [done|].
  simpl. simpl in IH. by rewrite IH.
Qed.

Lemma update_removals_sublist sSolution l : forall oFile,
  Forall (fun oToi => get_start_index oToi <= get_end_index oToi) l ->
  sublist
    (vhdlFile.update oFile
       (map (fun oToi => violation.set_tokens (remove_violation sSolution oToi) []) l))
    oFile.
Proof.
  induction l as [|oToi l IH]; intros oFile Hall; simpl; [done|].
  apply Forall_cons in Hall as [Hse Hall].
  etrans; [|apply (IH oFile Hall)].
  by apply take_drop_sublist.
Qed.

(** X15.  In the no-blank-line style a repair pass only deletes: when
    every range the stream reports for the rule ends no earlier than it
    starts, the pass succeeds and what is left of the stream are tokens
    of the stream, in their order; nothing is added or moved. *)
Theorem fix_no_blank_line_only_deletes {HH : Hierarchy} X self oFile :
  fixable self = true ->
  style self = "no_blank_line" ->
  Forall (fun oToi => get_start_index oToi <= get_end_index oToi)
    (vhdlFile.get_blank_lines_below_line_ending_with_token X oFile
       (lTokens self) (lHierarchyLimits self)) ->
  exists oFile',
    fix_ X self oFile = Some (set_violations self [], oFile')
    /\ sublist oFile' oFile.
Proof.
  intros Hf Hs Hall. unfold fix_. rewrite Hf.
  rewrite (analyze_frame X self oFile), set_violations_twice.
  unfold analyze, _analyze, _get_tokens_of_interest.
  cbn [style set_violations lAllowTokens lTokens lHierarchyLimits].
  rewrite Hs. cbn [String.eqb Ascii.eqb Bool.eqb].
  change (String.eqb "no_blank_line" "no_blank_line") with true. cbv iota.
  rewrite analyze_no_blank_line_violations. cbn [violations set_violations solution].
  rewrite app_nil_l, fix_remove_violations. cbn [mbind option_bind].
  eexists. split; [done|]. by apply update_removals_sublist.
Qed.

Lemma fix_no_blank_line_only_deletes_witness :
  exists oFile',
    fix_ (HH := item_hierarchy) {| vhdlFile.get_line_below_line_ending_with_token_with_hierarchy :=
              fun _ _ _ => [];
            vhdlFile.get_blank_lines_below_line_ending_with_token :=
              fun _ _ _ => [new_Tokens 4 3 [new_blank_line; new_carriage_return]] |}
      {| name := "process"; identifier := "011";
         solution := "Insert blank line below"; phase := 3; fixable := true;
         lTokens := [production "begin_keyword"]; lHierarchyLimits := None;
         lAllowTokens := []; style := "no_blank_line";
         configuration := ["style"]; violations := [] |}
      (process_lines ++ new_carriage_return :: new_blank_line :: new_carriage_return
         :: statement_lines)
    = Some (set_violations
              {| name := "process"; identifier := "011";
                 solution := "Insert blank line below"; phase := 3; fixable := true;
                 lTokens := [production "begin_keyword"]; lHierarchyLimits := None;
                 lAllowTokens := []; style := "no_blank_line";
                 configuration := ["style"]; violations := [] |} [],
            oFile')
    /\ sublist oFile'
         (process_lines ++ new_carriage_return :: new_blank_line :: new_carriage_return
            :: statement_lines).
Proof.
  apply (fix_no_blank_line_only_deletes
           {| vhdlFile.get_line_below_line_ending_with_token_with_hierarchy :=
                fun _ _ _ => [];
              vhdlFile.get_blank_lines_below_line_ending_with_token :=
                fun _ _ _ => [new_Tokens 4 3 [new_blank_line; new_carriage_return]] |}).
  - reflexivity.
  - reflexivity.
  - repeat constructor; simpl; lia.
Defined.

(** ** [architecture_010]: the substitution applied twice *)

Lemma take_spaces_app s t :
  architecture.skip_spaces t = t ->
  architecture.take_spaces (architecture.take_spaces s ++ t)
  = architecture.take_spaces s.
Proof.
  intros Ht.
  assert (Hnil : architecture.take_spaces t = []).
  { destruct t as [|x t]; [done|]. simpl in *.
    destruct (architecture.is_space x); [|done].
    exfalso. assert (Hlen : length (architecture.skip_spaces t) <= length t).
    { clear. induction t as [|y t IH]; simpl; [done|].
      destruct (architecture.is_space y); simpl; lia. }
    rewrite Ht in Hlen. simpl in Hlen. lia. }
  induction s as [|c r IH]; simpl; [done|].
  destruct (architecture.is_space c) eqn:Hc; [|done].
  simpl. by rewrite Hc, IH.
Qed.

Lemma re_sub_end_app s m r :
  architecture.match_ci (architecture.codes "end") (architecture.skip_spaces s)
  = Some (m, r) ->
  forall t,
    architecture.re_sub_end (architecture.take_spaces s ++ m ++ t)
    = architecture.take_spaces s ++ m ++ architecture.codes " architecture" ++ t.
Proof.
  intros Hm t. unfold architecture.re_sub_end.
  rewrite skip_take_spaces, (match_end_not_space _ _ _ Hm),
    (match_ci_app _ _ _ _ _ Hm).
  rewrite take_spaces_app; [done|]. apply (match_end_not_space _ _ _ Hm).
Qed.

(** X16.  The substitution of the repair is not idempotent: applied a
    second time to a line that begins with [end], it inserts the text
    [ architecture] a second time.  A line number held twice by the rule
    is therefore repaired twice. *)
Theorem re_sub_end_twice s :
  is_Some (architecture.match_ci (architecture.codes "end")
             (architecture.skip_spaces s)) ->
  exists sEnd sRest,
    s = sEnd ++ sRest
    /\ architecture.re_sub_end s
       = sEnd ++ architecture.codes " architecture" ++ sRest
    /\ architecture.re_sub_end (architecture.re_sub_end s)
       = sEnd ++ architecture.codes " architecture"
           ++ architecture.codes " architecture" ++ sRest.
Proof.
  intros [[m r] Hm].
  destruct (match_ci_split _ _ _ _ Hm) as (Hs & _ & _).
  assert (Heq : s = architecture.take_spaces s ++ m ++ r).
  { by rewrite <- Hs, take_skip_spaces. }
  exists (architecture.take_spaces s ++ m), r.
  rewrite <- !app_assoc. split; [done|].
  assert (H1 : architecture.re_sub_end s
               = architecture.take_spaces s ++ m
                   ++ architecture.codes " architecture" ++ r).
  { rewrite Heq at 1. apply (re_sub_end_app s m r Hm). }
  split; [done|]. rewrite H1. apply (re_sub_end_app s m r Hm).
Qed.

Lemma re_sub_end_twice_witness :
  exists sEnd sRest,
    architecture.codes "end rtl;" = sEnd ++ sRest
    /\ architecture.re_sub_end (architecture.codes "end rtl;")
       = sEnd ++ architecture.codes " architecture" ++ sRest
    /\ architecture.re_sub_end
         (architecture.re_sub_end (architecture.codes "end rtl;"))
       = sEnd ++ architecture.codes " architecture"
           ++ architecture.codes " architecture" ++ sRest.
Proof.
  apply (re_sub_end_twice (architecture.codes "end rtl;")).
  vm_compute. by eexists.
Defined.

(** ** [architecture_010]: analysis, then repair *)

(** X17.  Started without violations, the repair of what [analyze] has
    just recorded for a file never fails on that file, whatever its
    lines: it returns a file of the same length in which every line that
    needed no repair is the line it was. *)
Theorem analyze_then_fix_violations_010 self lines :
  architecture.violations self = [] ->
  exists lines',
    architecture._fix_violations
      (architecture.violations (architecture.analyze self lines)) lines
    = Some lines'
    /\ length lines' = length lines
    /\ forall j oLine,
         lines !! j = Some oLine -> architecture.clean oLine = true ->
         lines' !! j = Some oLine.
Proof.
  intros Hv. unfold architecture.analyze.
  destruct (analyze_from_added lines self 0) as (added & Hadd & _ & Hadded).
  rewrite Hadd, Hv. cbn [app].
  destruct (architecture._fix_violations added lines) as [lines'|] eqn:Hfix.
  - exists lines'. split; [done|].
    destruct (fix_violations_frame _ _ _ Hfix) as (Hlen & _ & Hrest).
    split; [done|]. intros j oLine Hj Hc. rewrite Hrest; [done|].
    intros (j' & o & Hjj & Ho & Hco)%Hadded. simpl in Hjj. subst j'. congruence.
  - exfalso. apply fix_violations_None in Hfix as (k & Hk & Hlen).
    apply Hadded in Hk as (j & o & Hjj & Ho & _). simpl in Hjj. subst j.
    apply lookup_lt_Some in Ho. lia.
Qed.

Lemma analyze_then_fix_violations_010_witness :
  exists lines',
    architecture._fix_violations
      (architecture.violations
         (architecture.analyze architecture.rule_010
            [ {| architecture.line := architecture.codes "begin"; architecture.isEndArchitecture := false |};
              {| architecture.line := architecture.codes "end rtl;"; architecture.isEndArchitecture := true |} ]))
      [ {| architecture.line := architecture.codes "begin"; architecture.isEndArchitecture := false |};
        {| architecture.line := architecture.codes "end rtl;"; architecture.isEndArchitecture := true |} ]
    = Some lines'
    /\ length lines'
       = length
           [ {| architecture.line := architecture.codes "begin"; architecture.isEndArchitecture := false |};
             {| architecture.line := architecture.codes "end rtl;"; architecture.isEndArchitecture := true |} ]
    /\ forall j oLine,
         [ {| architecture.line := architecture.codes "begin"; architecture.isEndArchitecture := false |};
           {| architecture.line := architecture.codes "end rtl;"; architecture.isEndArchitecture := true |} ]
           !! j = Some oLine ->
         architecture.clean oLine = true ->
         lines' !! j = Some oLine.
Proof.
  apply (analyze_then_fix_violations_010 architecture.rule_010
           [ {| architecture.line := architecture.codes "begin"; architecture.isEndArchitecture := false |};
             {| architecture.line := architecture.codes "end rtl;"; architecture.isEndArchitecture := true |} ]).
  reflexivity.
Defined.
